(** * Hetzner Robot client helpers ([plugins/module_utils/robot.py])

    A shallow embedding of the module's functions and the properties its
    specification states about them:

    - [get_x_www_form_urlenconded_dict_from_list], the form encoding helper;
    - [_format_list] and [format_error_msg], the error formatter;
    - [plugin_open_url_json] and [fetch_url_json], the two request executors;
    - [fetch_url_json_with_retries], the poller.

    Modelling choices.
    - A Python [str] is a Rocq [string]; one [ascii] stands for one code point
      below 256.  A Python [int] is a [Z]; floats are left out (the error
      payload of the API carries integers and strings only).
    - A decoded JSON value is the inductive [json]; a JSON object keeps its
      items in insertion order, as a Python [dict] does.
    - [str(int)] is stdpp's [pretty] on [Z].
    - Exceptions are values of [exn]; a computation that may raise returns a
      [result].
    - The HTTP client ([open_url], [fetch_url]), the JSON decoder and the clock
      are the environment: their answers are inputs of the functions below.
    - The poller runs on a [world], a clock in seconds and the log of its
      sleeps and requests; [time.sleep(d)] moves the clock by [d], a request
      by the time the transport says it took.
    - A [read()] of the body that raises an exception the code does not catch
      (lines 97-100 and 131-138) is left out: the replies of the transport
      are those of [open_url_outcome] and [fetch_resp].
    - The [while True] loop of the poller takes a bound on its rounds;
      [retry_loop_terminates] gives a bound that is enough. *)

From Stdlib Require Import ZArith String Ascii List Lia.
From stdpp Require Import base tactics option list strings pretty gmap.

Local Set Warnings "-register-all,-clear-no-such-hyp,-notation-for-abbreviation".
Local Open Scope string_scope.
Local Open Scope list_scope.
Local Open Scope Z_scope.

(** ** Python values *)

Module Py.

(** Decoded JSON, as [json.loads] returns it. *)
Inductive json : Type :=
  | JNull
  | JBool (b : bool)
  | JInt (z : Z)
  | JString (s : string)
  | JList (l : list json)
  | JObject (d : list (string * json)).

(** The exceptions the module's code can meet.  [FailJson] stands for the
    exit that [module.fail_json(msg=..., error=...)] performs. *)
Inductive exn : Type :=
  | KeyError (k : string)
  | TypeError
  | AttributeError
  | PluginException (error_message : string)
  | FailJson (msg : string) (error : option json)
  | CheckDoneTimeoutException (result error : option json).

Definition result (A : Type) : Type := exn + A.

Definition ok {A} (a : A) : result A := inr a.
Definition raise {A} (e : exn) : result A := inl e.

#[global] Instance result_ret : MRet result := fun A a => inr a.
#[global] Instance result_bind : MBind result := fun A B k m =>
  match m with
  | inl e => inl e
  | inr a => k a
  end.

(** [d[k]] and [d.get(k)] on the items of a [dict]. *)
Fixpoint dict_get (k : string) (d : list (string * json)) : option json :=
  match d with
  | [] => None
  | (k', v) :: d' => if String.eqb k k' then Some v else dict_get k d'
  end.

(** [obj[k]] for a string key [k]. *)
Definition getitem (obj : json) (k : string) : result json :=
  match obj with
  | JObject d =>
      match dict_get k d with
      | Some v => ok v
      | None => raise (KeyError k)
      end
  | _ => raise TypeError
  end.

(** [obj.get(k)]; Python's [None] and JSON's [null] are both [JNull]. *)
Definition get (obj : json) (k : string) : result json :=
  match obj with
  | JObject d => ok (default JNull (dict_get k d))
  | _ => raise AttributeError
  end.

(** [bool(v)]. *)
Definition truthy (v : json) : bool :=
  match v with
  | JNull => false
  | JBool b => b
  | JInt z => negb (z =? 0)
  | JString s => negb (String.eqb s EmptyString)
  | JList l => negb (Nat.eqb (length l) 0)
  | JObject d => negb (Nat.eqb (length d) 0)
  end.

(** *** [repr] of a string *)

Definition quote : ascii := ascii_of_N 39.
Definition dquote : ascii := ascii_of_N 34.
Definition backslash : ascii := ascii_of_N 92.

Definition hex_digit (n : N) : ascii :=
  if (n <? 10)%N then ascii_of_N (48 + n) else ascii_of_N (87 + n).

Fixpoint contains_char (c : ascii) (s : string) : bool :=
  match s with
  | EmptyString => false
  | String c' s' => Ascii.eqb c c' || contains_char c s'
  end.

(** A code point below 256 that [str.isprintable] rejects. *)
Definition unprintable (n : N) : bool :=
  ((n <? 32) || (n =? 127) || ((128 <=? n) && (n <=? 160)) || (n =? 173))%N.

Definition repr_char (q c : ascii) : string :=
  let n := N_of_ascii c in
  if Ascii.eqb c q || Ascii.eqb c backslash then String backslash (String c EmptyString)
  else if (n =? 9)%N then String backslash "t"
  else if (n =? 10)%N then String backslash "n"
  else if (n =? 13)%N then String backslash "r"
  else if unprintable n then
    String backslash
      (String "x" (String (hex_digit (n / 16)) (String (hex_digit (n mod 16)) EmptyString)))
  else String c EmptyString.

Fixpoint repr_chars (q : ascii) (s : string) : string :=
  match s with
  | EmptyString => EmptyString
  | String c s' => repr_char q c +:+ repr_chars q s'
  end.

(** Single quotes, unless the text has a single quote and no double one. *)
Definition str_repr (s : string) : string :=
  let q := if contains_char quote s && negb (contains_char dquote s)
           then dquote else quote in
  String q (repr_chars q s) +:+ String q EmptyString.

(** [", ".join(parts)]. *)
Fixpoint join (sep : string) (parts : list string) : string :=
  match parts with
  | [] => EmptyString
  | [p] => p
  | p :: ps => p +:+ sep +:+ join sep ps
  end.

(** [repr(v)]. *)
Fixpoint repr (v : json) : string :=
  match v with
  | JNull => "None"
  | JBool b => if b then "True" else "False"
  | JInt z => pretty z
  | JString s => str_repr s
  | JList l => "[" +:+ join ", " (map repr l) +:+ "]"
  | JObject d =>
      "{" +:+ join ", " (map (fun kv => str_repr (fst kv) +:+ ": " +:+ repr (snd kv)) d)
          +:+ "}"
  end.

(** [str(v)], which is what ['{0}'.format(v)] inserts. *)
Definition str (v : json) : string :=
  match v with
  | JString s => s
  | _ => repr v
  end.

(** [to_native(obj)]: text stays as it is, anything else goes through [str]. *)
Definition to_native (obj : json) : string := str obj.

End Py.

Import Py.

(** ** The form encoding helper *)

(** [dict(items)]: a later item overrides an earlier one with the same key. *)
Definition dict_of_items {V} (items : list (string * V)) : gmap string V :=
  foldl (fun m kv => <[kv.1 := kv.2]> m) ∅ items.

(** ['{key}[{index}]'.format(key=key, index=i)]. *)
Definition indexed_key (key : string) (i : nat) : string :=
  key +:+ "[" +:+ pretty i +:+ "]".

Definition get_x_www_form_urlenconded_dict_from_list {V}
    (key : string) (values : list V) : gmap string V :=
  match values with
  | [v] => (* len(values) == 1, and v is values[0] *)
      {[ key +:+ "[]" := v ]}
  | _ => dict_of_items (imap (fun i x => (indexed_key key i, x)) values)
  end.

(** ** The error formatter *)

Fixpoint _format_list (obj : json) : json :=
  match obj with
  | JList l => JList (map _format_list l)
  | _ => JString (to_native obj)
  end.

(** One [if cond: msg += label.format(value)] step of [format_error_msg]. *)
Definition append_if (cond : bool) (msg : string) (clause : result string)
    : result string :=
  if cond then c ← clause; mret (msg +:+ c) else mret msg.

Definition is_not_None (v : json) : bool :=
  match v with
  | JNull => false
  | _ => true
  end.

Definition format_error_msg (error : json) : result string :=
  status ← getitem error "status";
  code ← getitem error "code";
  message ← getitem error "message";
  let msg := "Request failed: " +:+ str status +:+ " " +:+ str code
             +:+ " (" +:+ str message +:+ ")" in
  missing ← get error "missing";
  msg ← append_if (truthy missing) msg
          (v ← getitem error "missing";
           mret (". Missing input parameters: " +:+ str (_format_list v)));
  invalid ← get error "invalid";
  msg ← append_if (truthy invalid) msg
          (v ← getitem error "invalid";
           mret (". Invalid input parameters: " +:+ str (_format_list v)));
  max_request ← get error "max_request";
  msg ← append_if (is_not_None max_request) msg
          (v ← getitem error "max_request";
           mret (". Maximum allowed requests: " +:+ str v));
  interval ← get error "interval";
  msg ← append_if (is_not_None interval) msg
          (v ← getitem error "interval";
           mret (". Time interval in seconds: " +:+ str v));
  mret msg.

(** ** The request executors *)

(** A byte string, one [ascii] per byte. *)
Definition bytes : Type := string.

(** [not content] on a byte string. *)
Definition is_empty (content : bytes) : bool := String.eqb content EmptyString.

(** The keyword arguments both executors share.  [accept_errors] is [None] or
    a list of error codes. *)
Record request_opts : Type := {
  accept_errors : option (list string);
  allow_empty_result : bool;
  allowed_empty_result_status_codes : list Z
}.

Definition default_opts : request_opts :=
  {| accept_errors := None;
     allow_empty_result := false;
     allowed_empty_result_status_codes := [200; 204] |}.

(** What a call of [open_url] followed by reading the body comes to:
    - [Response code body]: it returned, and [response.read()] gave [body];
    - [HTTPError code body]: it raised [HTTPError]; [e.read()] gives [body],
      or raises [AttributeError] when [body] is [None];
    - [OtherException e]: it raised any other [Exception], whose text is [e]. *)
Inductive open_url_outcome : Type :=
  | Response (code : Z) (body : bytes)
  | HTTPError (code : Z) (body : option bytes)
  | OtherException (e : string).

(** What [fetch_url] hands back as [resp]: [None], a response that is
    closed already, or one whose [read()] gives [body]. *)
Inductive fetch_resp : Type :=
  | RespNone
  | RespClosed
  | RespOpen (body : bytes).

(** The [info] dictionary of [fetch_url]: its status and its optional body. *)
Record fetch_info : Type := {
  info_status : Z;
  info_body : option bytes
}.

(** [needle in haystack] for text. *)
Fixpoint is_substring (needle haystack : string) : bool :=
  String.prefix needle haystack ||
  match haystack with
  | EmptyString => false
  | String _ rest => is_substring needle rest
  end.

(** [k in obj] for a string [k]: a key of a dict, an item of a list, a piece of
    a text; anything else is not a container. *)
Definition py_in (k : string) (obj : json) : result bool :=
  match obj with
  | JObject d => ok (bool_decide (is_Some (dict_get k d)))
  | JList l =>
      ok (existsb (fun x => match x with JString s => String.eqb s k | _ => false end) l)
  | JString s => ok (is_substring k s)
  | _ => raise TypeError
  end.

(** [code in accept_errors], for a list of codes. *)
Definition code_in (code : json) (codes : list string) : bool :=
  match code with
  | JString c => bool_decide (c ∈ codes)
  | _ => false
  end.

(** [if accept_errors:]. *)
Definition accept_errors_truthy (a : option (list string)) : bool :=
  match a with
  | Some (_ :: _) => true
  | _ => false
  end.

Definition status_allowed (status : Z) (codes : list Z) : bool :=
  bool_decide (status ∈ codes).

Section Executors.

(** [json.loads(content.decode('utf-8'))]; [None] is a [ValueError], from the
    decoding of the bytes or of the JSON text. *)
Variable json_loads : bytes -> option json.

(** The part of both executors after the body was decoded (lines 111-116 of
    [plugin_open_url_json], 147-152 of [fetch_url_json]), which differ in how
    they fail only: [fail] takes the message and the error object. *)
Definition decoded_result (fail : string -> json -> exn)
    (opts : request_opts) (result : json) : Py.result (option json * option json) :=
  has_error ← py_in "error" result;
  if has_error : bool then
    accepted ←
      (if accept_errors_truthy (accept_errors opts) then
         error ← getitem result "error";
         code ← getitem error "code";
         if code_in code (default [] (accept_errors opts))
         then mret (Some code) else mret None
       else mret None);
    match accepted with
    | Some code => mret (Some result, Some code)
    | None =>
        error ← getitem result "error";
        msg ← format_error_msg error;
        raise (fail msg error)
    end
  else mret (Some result, None).

(** The [try] around [open_url] (lines 81-102): the status and the body to go
    on with. *)
Definition read_reply (reply : open_url_outcome) (url : string) : Py.result (Z * bytes) :=
  match reply with
  | Response code body => ok (code, body)
  | HTTPError code (Some body) => ok (code, body)
  | HTTPError code None => ok (code, EmptyString)
  | OtherException e =>
      raise (PluginException
               ("Failed request to Hetzner Robot server endpoint " +:+ url +:+ ": " +:+ e))
  end.

Definition plugin_open_url_json (reply : open_url_outcome) (url : string)
    (opts : request_opts) : Py.result (option json * option json) :=
  '(status, content) ← read_reply reply url;
  if is_empty content then
    if allow_empty_result opts
       && status_allowed status (allowed_empty_result_status_codes opts)
    then mret (None, None)
    else raise (PluginException
                  ("Cannot retrieve content from " +:+ url
                   +:+ ", HTTP status code " +:+ pretty status))
  else
    match json_loads content with
    | Some result => decoded_result (fun msg _ => PluginException msg) opts result
    | None => raise (PluginException ("Cannot decode content retrieved from " +:+ url))
    end.

(** [not content] when [content] may also be [None]. *)
Definition no_content (content : option bytes) : bool :=
  match content with
  | Some c => is_empty c
  | None => true
  end.

(** The [try] around [resp.read()] (lines 131-138): reading fails with [AttributeError] ([resp]
    is [None]) or [TypeError] (it is closed), and the body then comes from
    [info.pop('body', None)]. *)
Definition read_content (resp : fetch_resp) (info : fetch_info) : option bytes :=
  match resp with
  | RespOpen body => Some body
  | RespClosed | RespNone => info_body info
  end.

(** [fetch_url_json] from the answer [(resp, info)] of [fetch_url] on (lines
    131-154); [module.fail_json] ends the run, as [FailJson]. *)
Definition fetch_url_json_of (resp : fetch_resp) (info : fetch_info) (url : string)
    (opts : request_opts) : Py.result (option json * option json) :=
  let content := read_content resp info in
  if no_content content then
    if allow_empty_result opts
       && status_allowed (info_status info) (allowed_empty_result_status_codes opts)
    then mret (None, None)
    else raise (FailJson ("Cannot retrieve content from " +:+ url
                          +:+ ", HTTP status code " +:+ pretty (info_status info)) None)
  else
    match json_loads (default EmptyString content) with
    | Some result => decoded_result (fun msg error => FailJson msg (Some error)) opts result
    | None => raise (FailJson ("Cannot decode content retrieved from " +:+ url) None)
    end.

End Executors.

(** ** The poller *)

(** What the poller does to the outside, in order. *)
Inductive event : Type :=
  | Slept (seconds : Z)
  | Requested (at_time : Z) (outcome : Py.result (option json * option json)).

(** The clock, in seconds, and the events so far. *)
Record world : Type := {
  clock : Z;
  log : list event
}.

(** A computation on the world that may raise; [None] when the bound on the
    number of loop rounds was too small. *)
Definition io (A : Type) : Type := world -> option (Py.result A * world).

Definition io_ret {A} (a : A) : io A := fun w => Some (inr a, w).
Definition io_raise {A} (e : exn) : io A := fun w => Some (inl e, w).
Definition io_bind {A B} (m : io A) (k : A -> io B) : io B := fun w =>
  match m w with
  | Some (inr a, w') => k a w'
  | Some (inl e, w') => Some (inl e, w')
  | None => None
  end.
Definition out_of_fuel {A} : io A := fun _ => None.

#[global] Instance io_mret : MRet io := @io_ret.
#[global] Instance io_mbind : MBind io := fun A B k m => io_bind m k.

(** [time.time()]. *)
Definition time_time : io Z := fun w => Some (inr (clock w), w).

(** [time.sleep(seconds)]: the clock moves on by just [seconds]. *)
Definition time_sleep (seconds : Z) : io unit := fun w =>
  Some (inr tt, {| clock := clock w + seconds; log := log w ++ [Slept seconds] |}).

Section Poller.

Variable json_loads : bytes -> option json.

(** [fetch_url] of the framework: from the world at the time of the call, its
    answer and the seconds the call took. *)
Variable fetch_url : world -> fetch_resp * fetch_info * Z.

(** [fetch_url_json] as the poller calls it: the call of [fetch_url], and the
    rest of the function on its answer. *)
Definition fetch_url_json (url : string) (opts : request_opts)
    : io (option json * option json) := fun w =>
  let '(resp, info, took) := fetch_url w in
  let outcome := fetch_url_json_of json_loads resp info url opts in
  Some (outcome,
        {| clock := clock w + took; log := log w ++ [Requested (clock w) outcome] |}).

Variable url : string.
Variable check_done_callback : option json -> option json -> bool.
Variable check_done_delay check_done_timeout : Z.
Variable kwargs : request_opts.

(** The [while True] loop, for at most [fuel] rounds. *)
Fixpoint retry_loop (fuel : nat) (start_time : Z) : io (option json * option json) :=
  match fuel with
  | O => out_of_fuel
  | S fuel' =>
      now ← time_time;
      let elapsed := now - start_time in
      let left_time := check_done_timeout - elapsed in
      _ ← time_sleep (Z.max (Z.min check_done_delay left_time) 0);
      '(result, error) ← fetch_url_json url kwargs;
      if check_done_callback result error then io_ret (result, error)
      else if left_time <? check_done_delay
           then io_raise (CheckDoneTimeoutException result error)
           else retry_loop fuel' start_time
  end.

Definition fetch_url_json_with_retries (fuel : nat) (skip_first : bool)
    : io (option json * option json) :=
  start_time ← time_time;
  if negb skip_first then
    '(result, error) ← fetch_url_json url kwargs;
    if check_done_callback result error then io_ret (result, error)
    else retry_loop fuel start_time
  else retry_loop fuel start_time.

End Poller.

(** The requests of a log, as the seconds since [start] at which each began. *)
Definition request_times (start : Z) (l : list event) : list Z :=
  omap (fun ev => match ev with
                  | Requested t _ => Some (t - start)
                  | Slept _ => None
                  end) l.

(** The sleeps of a log, in seconds. *)
Definition sleeps (l : list event) : list Z :=
  omap (fun ev => match ev with
                  | Slept d => Some d
                  | Requested _ _ => None
                  end) l.

(** The events of one run of the poller that ends with [r], for the
    predicate [check]: sleeps and requests whose outcome does not satisfy
    [check], then one last request, which fails, satisfies [check], or is the
    one the timeout stops at. *)
Inductive poll_trace (check : option json -> option json -> bool)
    : list event -> Py.result (option json * option json) -> Prop :=
  | pt_failed t e :
      poll_trace check [Requested t (raise e)] (raise e)
  | pt_done t result error :
      check result error = true ->
      poll_trace check [Requested t (ok (result, error))] (ok (result, error))
  | pt_timeout t result error :
      check result error = false ->
      poll_trace check [Requested t (ok (result, error))]
        (raise (CheckDoneTimeoutException result error))
  | pt_sleep d tr r :
      poll_trace check tr r -> poll_trace check (Slept d :: tr) r
  | pt_retry t result error tr r :
      check result error = false ->
      poll_trace check tr r ->
      poll_trace check (Requested t (ok (result, error)) :: tr) r.

(** The world in which a round of the loop sends its request: the one after
    the sleep of that round. *)
Definition after_sleep (delay timeout start : Z) (w : world) : world :=
  let d := Z.max (Z.min delay (timeout - (clock w - start))) 0 in
  {| clock := clock w + d; log := log w ++ [Slept d] |}.

(** The sleep of the first round when the loop starts at the start time:
    nothing of the budget is spent yet. *)
Definition first_sleep (delay timeout : Z) : Z := Z.max (Z.min delay timeout) 0.

Definition has_request (l : list event) : Prop :=
  exists t o, Requested t o ∈ l.

(** ** The data model of the specification *)

(** An error of the API, with its optional fields. *)
Record ApiError : Type := {
  ae_status : Z;
  ae_code : string;
  ae_message : string;
  ae_missing : option (list string);
  ae_invalid : option (list string);
  ae_max_request : option Z;
  ae_interval : option Z
}.

Definition optional_item {A} (k : string) (f : A -> json) (o : option A)
    : list (string * json) :=
  match o with
  | Some a => [(k, f a)]
  | None => []
  end.

Definition text_list (l : list string) : json := JList (map JString l).

(** The decoded JSON object of an [ApiError]: a field that is not set has no
    item. *)
Definition payload (e : ApiError) : json :=
  JObject ([("status", JInt (ae_status e)); ("code", JString (ae_code e));
            ("message", JString (ae_message e))]
           ++ optional_item "missing" text_list (ae_missing e)
           ++ optional_item "invalid" text_list (ae_invalid e)
           ++ optional_item "max_request" JInt (ae_max_request e)
           ++ optional_item "interval" JInt (ae_interval e)).

Definition headline (e : ApiError) : string :=
  "Request failed: " +:+ pretty (ae_status e) +:+ " " +:+ ae_code e
  +:+ " (" +:+ ae_message e +:+ ")".

(** A list of texts as Python prints it. *)
Definition render_list (l : list string) : string :=
  "[" +:+ join ", " (map str_repr l) +:+ "]".

(** A clause for a field that is set. *)
Definition clause {A} (label : string) (render : A -> string) (o : option A) : string :=
  match o with
  | Some a => label +:+ render a
  | None => EmptyString
  end.

(** A list field counts when it is set and not empty. *)
Definition nonempty (o : option (list string)) : option (list string) :=
  match o with
  | Some [] => None
  | _ => o
  end.

(** The formatter in the words of the specification: after the headline, one
    clause for each optional field that is present. *)
Definition format_error_message_spec (e : ApiError) : string :=
  headline e
  +:+ clause ". Missing input parameters: " render_list (ae_missing e)
  +:+ clause ". Invalid input parameters: " render_list (ae_invalid e)
  +:+ clause ". Maximum allowed requests: " pretty (ae_max_request e)
  +:+ clause ". Time interval in seconds: " pretty (ae_interval e).

(** The error's code is one of the codes the caller accepts. *)
Definition code_accepted (opts : request_opts) (error : json) (c : string) : Prop :=
  getitem error "code" = ok (JString c) /\
  exists codes, accept_errors opts = Some codes /\ c ∈ codes.

(** An empty body may stand for a result: the caller allows it, and for this
    status. *)
Definition empty_allowed (opts : request_opts) (status : Z) : Prop :=
  allow_empty_result opts = true /\ status ∈ allowed_empty_result_status_codes opts.

(** The messages of the failures that are not errors of the API. *)
Definition transport_failure_msg (url cause : string) : string :=
  "Failed request to Hetzner Robot server endpoint " +:+ url +:+ ": " +:+ cause.

Definition empty_response_msg (url : string) (status : Z) : string :=
  "Cannot retrieve content from " +:+ url +:+ ", HTTP status code " +:+ pretty status.

(** ** Sample data *)

Definition bare_error : ApiError :=
  {| ae_status := 404; ae_code := "SERVER_NOT_FOUND"; ae_message := "server not found";
     ae_missing := None; ae_invalid := None;
     ae_max_request := None; ae_interval := None |}.

(** An error whose list of missing parameters is set, and empty. *)
Definition empty_missing_error : ApiError :=
  {| ae_status := 400; ae_code := "INVALID_INPUT"; ae_message := "invalid input";
     ae_missing := Some []; ae_invalid := None;
     ae_max_request := None; ae_interval := None |}.

Definition missing_ab_error : ApiError :=
  {| ae_status := 400; ae_code := "INVALID_INPUT"; ae_message := "invalid input";
     ae_missing := Some ["a"; "b"]; ae_invalid := None;
     ae_max_request := None; ae_interval := None |}.

Definition zero_limits_error : ApiError :=
  {| ae_status := 403; ae_code := "RATE_LIMIT_EXCEEDED"; ae_message := "rate limit exceeded";
     ae_missing := None; ae_invalid := None;
     ae_max_request := Some 0; ae_interval := Some 0 |}.

Definition sample_url : string := "https://robot-ws.your-server.de/reset/1".

(** A decoder for the samples: every body decodes to the object with the
    given error. *)
Definition sample_loads (e : ApiError) : bytes -> option json :=
  fun _ => Some (JObject [("error", payload e)]).

Definition accepting (codes : list string) : request_opts :=
  {| accept_errors := Some codes;
     allow_empty_result := false;
     allowed_empty_result_status_codes := [200; 204] |}.

Definition allowing_empty : request_opts :=
  {| accept_errors := None;
     allow_empty_result := true;
     allowed_empty_result_status_codes := [200; 204] |}.

(** A transport for the samples: every call answers at once, with a body. *)
Definition instant_reply : world -> fetch_resp * fetch_info * Z :=
  fun _ => (RespOpen "{}", {| info_status := 200; info_body := None |}, 0).

(** A transport whose second call, and every later one, has no body. *)
Definition second_reply_empty : world -> fetch_resp * fetch_info * Z :=
  fun w =>
    match request_times 0 (log w) with
    | [] => (RespOpen "{}", {| info_status := 200; info_body := None |}, 1)
    | _ => (RespNone, {| info_status := -1; info_body := None |}, 1)
    end.

Definition loads_empty_object : bytes -> option json :=
  fun _ => Some (JObject []).

Definition never_done : option json -> option json -> bool := fun _ _ => false.
Definition always_done : option json -> option json -> bool := fun _ _ => true.

Definition at_noon : world := {| clock := 43200; log := [] |}.

(** The world after a first request at noon that took a second. *)
Definition after_first_request : world :=
  {| clock := 43201; log := [Requested 43200 (ok (Some (JObject []), None))] |}.

(** Every call of the transport answers at once, and the executor makes a
    result of the answer. *)
Definition instant_success (json_loads : bytes -> option json)
    (fetch_url : world -> fetch_resp * fetch_info * Z)
    (url : string) (kwargs : request_opts) : Prop :=
  forall w, exists resp info res,
    fetch_url w = (resp, info, 0)
    /\ fetch_url_json_of json_loads resp info url kwargs = ok res.

(** ** Further notions *)

(** Induction on [json] that reaches the items of lists and of objects. *)
Section JsonInduction.

Variable P : json -> Prop.
Hypothesis Hnull : P JNull.
Hypothesis Hbool : forall b, P (JBool b).
Hypothesis Hnum : forall z, P (JInt z).
Hypothesis Hstring : forall s, P (JString s).
Hypothesis Hlist : forall l, Forall P l -> P (JList l).
Hypothesis Hobject : forall d, Forall (fun kv => P kv.2) d -> P (JObject d).

Fixpoint json_nested_ind (v : json) : P v :=
  match v with
  | JNull => Hnull
  | JBool b => Hbool b
  | JInt z => Hnum z
  | JString s => Hstring s
  | JList l =>
      Hlist l ((fix items (l : list json) : Forall P l :=
                  match l with
                  | [] => @List.Forall_nil _ P
                  | x :: l' => @List.Forall_cons _ P x l' (json_nested_ind x) (items l')
                  end) l)
  | JObject d =>
      Hobject d ((fix items (d : list (string * json)) : Forall (fun kv => P kv.2) d :=
                    match d with
                    | [] => @List.Forall_nil _ (fun kv => P kv.2)
                    | kv :: d' =>
                        @List.Forall_cons _ (fun kv => P kv.2) kv d' (json_nested_ind kv.2) (items d')
                    end) d)
  end.

End JsonInduction.

(** Texts, and lists of such values: what [_format_list] makes. *)
Inductive text_tree : json -> Prop :=
  | tt_text s : text_tree (JString s)
  | tt_list l : Forall text_tree l -> text_tree (JList l).

(** A value that is a JSON object. *)
Definition is_object (v : json) : bool :=
  match v with
  | JObject _ => true
  | _ => false
  end.

(** The clause of an optional item of an error object: [field] is what
    [dict_get] finds, [counts] the test of the code on the value. *)
Definition optional_clause (counts : json -> bool) (label : string)
    (render : json -> string) (field : option json) : string :=
  match field with
  | Some v => if counts v then label +:+ render v else EmptyString
  | None => EmptyString
  end.

(** The two executors end alike: with the same result, with failures of
    their own kind that carry the same message, or with the same exception. *)
Definition same_outcome {A} (plugin module : result A) : Prop :=
  match plugin, module with
  | inr a, inr b => a = b
  | inl (PluginException m), inl (FailJson m' _) => m = m'
  | inl e, inl e' => e = e'
  | _, _ => False
  end.

(** The codes of [accept_errors], none when it is [None]. *)
Definition accepted_codes (opts : request_opts) : list string :=
  default [] (accept_errors opts).

(** [opts] with another [accept_errors]. *)
Definition with_accept_errors (a : option (list string)) (opts : request_opts)
    : request_opts :=
  {| accept_errors := a;
     allow_empty_result := allow_empty_result opts;
     allowed_empty_result_status_codes := allowed_empty_result_status_codes opts |}.

(** The number of requests in a log. *)
Definition requests_made (l : list event) : nat := length (request_times 0 l).

(** An error object whose optional items have values of other types. *)
Definition odd_error_object : list (string * json) :=
  [("status", JInt 403); ("code", JString "RATE_LIMIT_EXCEEDED");
   ("message", JString "too many"); ("max_request", JNull);
   ("interval", JInt 60); ("missing", JString "ip")].

(** [plugin_open_url_json] ends with [out] on every reply that reads as
    [body], whatever its status. *)
Definition plugin_on_body (json_loads : bytes -> option json) (url : string)
    (opts : request_opts) (body : bytes)
    (out : result (option json * option json)) : Prop :=
  forall reply status, read_reply reply url = ok (status, body) ->
    plugin_open_url_json json_loads reply url opts = out.

(** [fetch_url_json] ends with [out] on every answer of [fetch_url] whose
    content is [body]. *)
Definition module_on_body (json_loads : bytes -> option json) (url : string)
    (opts : request_opts) (body : bytes)
    (out : result (option json * option json)) : Prop :=
  forall resp info, read_content resp info = Some body ->
    fetch_url_json_of json_loads resp info url opts = out.

(** What a returned pair says about the body with status [status] it came
    from: an empty body that was allowed, or a decoded body that has no
    error, or one whose error has a code the caller accepts. *)
Definition result_of_body (json_loads : bytes -> option json) (opts : request_opts)
    (status : Z) (body : bytes) (r c : option json) : Prop :=
  (body = EmptyString /\ empty_allowed opts status /\ r = None /\ c = None)
  \/ (body <> EmptyString /\
      exists result, json_loads body = Some result /\ r = Some result /\
        ((c = None /\ py_in "error" result = ok false)
         \/ (exists error code,
               getitem result "error" = ok error
               /\ getitem error "code" = ok (JString code)
               /\ code ∈ accepted_codes opts
               /\ c = Some (JString code)))).

(** Both executors end with [out] on [body]. *)
Definition executors_on_body (json_loads : bytes -> option json) (url : string)
    (opts : request_opts) (body : bytes)
    (out : result (option json * option json)) : Prop :=
  plugin_on_body json_loads url opts body out
  /\ module_on_body json_loads url opts body out.

(** The events of the loop: rounds of one sleep and then one request. *)
Inductive rounds : list event -> Prop :=
  | rounds_nil : rounds []
  | rounds_cons d t o l : rounds l -> rounds (Slept d :: Requested t o :: l).

(** The end of the scenario with a delay of 10 and a timeout of 25 seconds,
    started at noon with requests that answer at once and are never done. *)
Definition scenario_outcome : option json * option json := (Some (JObject []), None).

Definition scenario_end : world :=
  {| clock := 43225;
     log := [Requested 43200 (ok scenario_outcome);
             Slept 10; Requested 43210 (ok scenario_outcome);
             Slept 10; Requested 43220 (ok scenario_outcome);
             Slept 5; Requested 43225 (ok scenario_outcome)] |}.

Definition scenario_timeout : Py.result (option json * option json) :=
  raise (CheckDoneTimeoutException (Some (JObject [])) None).

(** [module.params[k]]. *)
Definition params_getitem (params : gmap string json) (k : string) : result json :=
  match params !! k with
  | Some v => ok v
  | None => raise (KeyError k)
  end.

(** The first three statements of [fetch_url_json] (lines 127-129), on
    [module.params]: the credentials of the module become those of the
    request. *)
Definition set_auth_params (params : gmap string json) : result (gmap string json) :=
  user ← params_getitem params "hetzner_user";
  let params := <["url_username" := user]> params in
  password ← params_getitem params "hetzner_password";
  let params := <["url_password" := password]> params in
  mret (<["force_basic_auth" := JBool true]> params).

(** * Properties *)

(** ** Text *)

Lemma append_cons (c : ascii) (s t : string) : String c s +:+ t = String c (s +:+ t).
Proof. reflexivity. Qed.

Lemma append_nil_l (s : string) : EmptyString +:+ s = s.
Proof. reflexivity. Qed.

Lemma append_assoc (s t u : string) : (s +:+ t) +:+ u = s +:+ (t +:+ u).
Proof. induction s as [|c s IH]; rewrite ?append_cons, ?append_nil_l; congruence. Qed.

Lemma append_nil_r (s : string) : s +:+ EmptyString = s.
Proof. induction s as [|c s IH]; rewrite ?append_cons, ?append_nil_l; congruence. Qed.

Lemma append_char_inj_r (s t : string) (c : ascii) :
  s +:+ String c EmptyString = t +:+ String c EmptyString -> s = t.
Proof.
  revert t; induction s as [|a s IH]; intros [|b t] H;
    rewrite ?append_cons, ?append_nil_l in H.
  - reflexivity.
  - injection H as _ H. destruct t; discriminate.
  - injection H as _ H. destruct s; discriminate.
  - injection H as -> H. f_equal. now apply IH.
Qed.

Lemma indexed_key_inj (key : string) (i j : nat) :
  indexed_key key i = indexed_key key j -> i = j.
Proof.
  unfold indexed_key. intros H.
  apply (inj (String.append key)) in H.
  apply (inj (String.append "[")) in H.
  apply append_char_inj_r in H.
  now apply (inj pretty) in H.
Qed.

Example repr_demo :
  repr (JList [JString "a"; JInt (-25); JNull; JObject [("k", JBool true)]])
  = "['a', -25, None, {'k': True}]".
Proof. vm_compute. reflexivity. Qed.

(** ** The form encoding helper *)

Lemma foldl_insert_lookup {V} (items : list (string * V)) (m : gmap string V)
    (k : string) (x : V) :
  NoDup (items.*1) ->
  foldl (fun m kv => <[kv.1 := kv.2]> m) m items !! k = Some x
  <-> (k, x) ∈ items \/ ((k ∉ items.*1) /\ m !! k = Some x).
Proof.
  revert m. induction items as [|[k0 v0] items IH]; intros m Hnd; csimpl.
  - rewrite elem_of_nil. split; [intros H; right; split; [apply not_elem_of_nil | exact H] | ].
    intros [[] | [_ H]]; exact H.
  - csimpl in Hnd. apply NoDup_cons in Hnd as [Hk0 Hnd].
    assert (Hfresh : forall y, (k0, y) ∈ items -> False).
    { intros y Hin. apply Hk0. apply list_elem_of_fmap. exists (k0, y). auto. }
    rewrite (IH _ Hnd), !elem_of_cons.
    destruct (decide (k = k0)) as [->|Hne].
    + rewrite lookup_insert_eq. naive_solver.
    + rewrite lookup_insert_ne by congruence. naive_solver.
Qed.

Lemma dict_of_items_lookup {V} (items : list (string * V)) (k : string) (x : V) :
  NoDup (items.*1) -> dict_of_items items !! k = Some x <-> (k, x) ∈ items.
Proof.
  intros Hnd. unfold dict_of_items. rewrite (foldl_insert_lookup _ _ _ _ Hnd).
  rewrite lookup_empty. split; [intros [H | [_ H]]; [exact H | discriminate] | auto].
Qed.

Lemma indexed_keys_NoDup {V} (key : string) (values : list V) :
  NoDup ((imap (fun i x => (indexed_key key i, x)) values).*1).
Proof.
  apply NoDup_alt. intros i j k Hi Hj.
  rewrite list_lookup_fmap, list_lookup_imap in Hi, Hj.
  destruct (values !! i); [|discriminate]. destruct (values !! j); [|discriminate].
  simpl in Hi, Hj. apply (indexed_key_inj key). congruence.
Qed.

(** C9. For a key and a list of values that is not empty, the helper returns
    the one-item mapping from [key[]] to the value when the list has one
    element, and otherwise the mapping from [key[i]] to the [i]-th value, for
    the indices of the list in order. *)
Theorem form_dict_from_list_spec {V} (key : string) (values : list V) :
  values <> [] ->
  (forall v, values = [v] ->
     get_x_www_form_urlenconded_dict_from_list key values = {[ key +:+ "[]" := v ]})
  /\ (length values <> 1%nat ->
      forall k x,
        get_x_www_form_urlenconded_dict_from_list key values !! k = Some x
        <-> exists i : nat, k = key +:+ "[" +:+ pretty i +:+ "]" /\ values !! i = Some x).
Proof.
  intros _. split.
  - intros v ->. reflexivity.
  - intros Hlen k x.
    assert (Hdef : get_x_www_form_urlenconded_dict_from_list key values
                   = dict_of_items (imap (fun i x => (indexed_key key i, x)) values)).
    { destruct values as [|v [|v' values]]; [reflexivity | simpl in Hlen; congruence | reflexivity]. }
    rewrite Hdef, (dict_of_items_lookup _ _ _ (indexed_keys_NoDup key values)).
    rewrite elem_of_lookup_imap. unfold indexed_key. split.
    + intros (i & y & Heq & Hi). injection Heq as -> ->. eauto.
    + intros (i & -> & Hi). eauto.
Qed.

Lemma form_dict_from_list_spec_witness :
  (forall v, ["10.0.0.1"; "10.0.0.2"] = [v] ->
     get_x_www_form_urlenconded_dict_from_list "ip" ["10.0.0.1"; "10.0.0.2"]
     = {[ "ip" +:+ "[]" := v ]})
  /\ (length ["10.0.0.1"; "10.0.0.2"] <> 1%nat ->
      forall k x,
        get_x_www_form_urlenconded_dict_from_list "ip" ["10.0.0.1"; "10.0.0.2"] !! k = Some x
        <-> exists i : nat, k = "ip" +:+ "[" +:+ pretty i +:+ "]"
                            /\ ["10.0.0.1"; "10.0.0.2"] !! i = Some x).
Proof. apply (form_dict_from_list_spec "ip" ["10.0.0.1"; "10.0.0.2"]). discriminate. Defined.

Example form_dict_single :
  get_x_www_form_urlenconded_dict_from_list "ip" ["10.0.0.1"] !! "ip[]" = Some "10.0.0.1".
Proof. vm_compute. reflexivity. Qed.

Example form_dict_two :
  let d := get_x_www_form_urlenconded_dict_from_list "ip" ["a"; "b"] in
  d !! "ip[0]" = Some "a" /\ d !! "ip[1]" = Some "b" /\ d !! "ip[]" = None
  /\ size d = 2%nat.
Proof. vm_compute. auto. Qed.

(** ** The error formatter *)

Lemma bind_ok {A B} (a : A) (k : A -> result B) : (ok a ≫= k) = k a.
Proof. reflexivity. Qed.

Lemma bind_raise {A B} (e : exn) (k : A -> result B) : (raise e ≫= k) = raise e.
Proof. reflexivity. Qed.

Ltac run_ok := repeat (rewrite bind_ok; cbv beta).

Lemma repr_text_list (l : list string) :
  str (_format_list (text_list l)) = render_list l.
Proof.
  unfold text_list, render_list. simpl.
  replace (map repr (map _format_list (map JString l))) with (map str_repr l);
    [reflexivity |].
  induction l as [|s l IH]; simpl; [reflexivity | now rewrite IH].
Qed.

Lemma getitem_payload (e : ApiError) :
  getitem (payload e) "status" = ok (JInt (ae_status e))
  /\ getitem (payload e) "code" = ok (JString (ae_code e))
  /\ getitem (payload e) "message" = ok (JString (ae_message e)).
Proof. repeat split. Qed.

Lemma get_payload (e : ApiError) :
  get (payload e) "missing" = ok (from_option text_list JNull (ae_missing e))
  /\ get (payload e) "invalid" = ok (from_option text_list JNull (ae_invalid e))
  /\ get (payload e) "max_request" = ok (from_option JInt JNull (ae_max_request e))
  /\ get (payload e) "interval" = ok (from_option JInt JNull (ae_interval e)).
Proof.
  destruct e as [st co me [mi|] [iv|] [mr|] [it|]]; repeat split.
Qed.

Lemma getitem_payload_optional (e : ApiError) :
  getitem (payload e) "missing"
    = from_option (fun l => ok (text_list l)) (raise (KeyError "missing")) (ae_missing e)
  /\ getitem (payload e) "invalid"
    = from_option (fun l => ok (text_list l)) (raise (KeyError "invalid")) (ae_invalid e)
  /\ getitem (payload e) "max_request"
    = from_option (fun z => ok (JInt z)) (raise (KeyError "max_request")) (ae_max_request e)
  /\ getitem (payload e) "interval"
    = from_option (fun z => ok (JInt z)) (raise (KeyError "interval")) (ae_interval e).
Proof.
  destruct e as [st co me [mi|] [iv|] [mr|] [it|]]; repeat split.
Qed.

Lemma list_clause_step (label : string) (o : option (list string)) (msg : string)
    (e : exn) :
  append_if (truthy (from_option text_list JNull o)) msg
    (v ← from_option (fun l => ok (text_list l)) (raise e) o;
     mret (label +:+ str (_format_list v)))
  = ok (msg +:+ clause label render_list (nonempty o)).
Proof.
  destruct o as [[|x l]|].
  - simpl. now rewrite append_nil_r.
  - change (truthy (from_option text_list JNull (Some (x :: l)))) with true.
    unfold append_if, from_option, nonempty, clause, mbind, result_bind, ok, mret, result_ret.
    now rewrite repr_text_list.
  - simpl. now rewrite append_nil_r.
Qed.

Lemma int_clause_step (label : string) (o : option Z) (msg : string) (e : exn) :
  append_if (is_not_None (from_option JInt JNull o)) msg
    (v ← from_option (fun z => ok (JInt z)) (raise e) o;
     mret (label +:+ str v))
  = ok (msg +:+ clause label pretty o).
Proof.
  destruct o as [z|]; simpl; [reflexivity | now rewrite append_nil_r].
Qed.

(** The message of the code on the payload of an [ApiError]: a list clause
    needs a list that is set and not empty, a number clause a number that is
    set. *)
Lemma format_error_msg_payload (e : ApiError) :
  format_error_msg (payload e)
  = ok (headline e
        +:+ clause ". Missing input parameters: " render_list (nonempty (ae_missing e))
        +:+ clause ". Invalid input parameters: " render_list (nonempty (ae_invalid e))
        +:+ clause ". Maximum allowed requests: " pretty (ae_max_request e)
        +:+ clause ". Time interval in seconds: " pretty (ae_interval e)).
Proof.
  unfold format_error_msg.
  destruct (getitem_payload e) as (-> & -> & ->).
  destruct (get_payload e) as (-> & -> & -> & ->).
  destruct (getitem_payload_optional e) as (-> & -> & -> & ->).
  run_ok. rewrite list_clause_step.
  run_ok. rewrite list_clause_step.
  run_ok. rewrite int_clause_step.
  run_ok. rewrite int_clause_step.
  run_ok.
  unfold headline, str. rewrite !append_assoc. reflexivity.
Qed.

(** C7, as the code has it.  For every ApiError the message is the headline
    [Request failed: status code (message)] followed, in the order missing,
    invalid, max_request, interval, by the clause of each list field that is
    set and not empty and of each number field that is set.  An error with
    status, code and message only gives the headline alone, and the list of
    missing parameters [a], [b] gives the clause
    [. Missing input parameters: ['a', 'b']], in that order. *)
Theorem format_error_msg_clauses (e : ApiError) :
  format_error_msg (payload e)
  = ok (headline e
        +:+ clause ". Missing input parameters: " render_list (nonempty (ae_missing e))
        +:+ clause ". Invalid input parameters: " render_list (nonempty (ae_invalid e))
        +:+ clause ". Maximum allowed requests: " pretty (ae_max_request e)
        +:+ clause ". Time interval in seconds: " pretty (ae_interval e))
  /\ (ae_missing e = None -> ae_invalid e = None ->
      ae_max_request e = None -> ae_interval e = None ->
      format_error_msg (payload e) = ok (headline e))
  /\ (ae_missing e = Some ["a"; "b"] ->
      format_error_msg (payload e)
      = ok (headline e
            +:+ ". Missing input parameters: ['a', 'b']"
            +:+ clause ". Invalid input parameters: " render_list (nonempty (ae_invalid e))
            +:+ clause ". Maximum allowed requests: " pretty (ae_max_request e)
            +:+ clause ". Time interval in seconds: " pretty (ae_interval e))).
Proof.
  split; [apply format_error_msg_payload | split].
  - intros Hmi Hiv Hmr Hit. rewrite format_error_msg_payload, Hmi, Hiv, Hmr, Hit.
    simpl. now rewrite !append_nil_r.
  - intros Hmi. rewrite format_error_msg_payload, Hmi. reflexivity.
Qed.

Lemma format_error_msg_clauses_witness :
  format_error_msg (payload bare_error) = ok (headline bare_error)
  /\ format_error_msg (payload missing_ab_error)
     = ok "Request failed: 400 INVALID_INPUT (invalid input). Missing input parameters: ['a', 'b']".
Proof.
  split.
  - apply (format_error_msg_clauses bare_error); reflexivity.
  - destruct (format_error_msg_clauses missing_ab_error) as (_ & _ & H).
    rewrite H; reflexivity.
Defined.

(** C7, as the specification words it, fails: the list of missing parameters
    that is set and empty is present, and the code gives it no clause. *)
Lemma format_error_msg_presence_counterexample :
  format_error_msg (payload empty_missing_error)
  = ok "Request failed: 400 INVALID_INPUT (invalid input)"
  /\ format_error_message_spec empty_missing_error
     = "Request failed: 400 INVALID_INPUT (invalid input). Missing input parameters: []"
  /\ format_error_msg (payload empty_missing_error)
     <> ok (format_error_message_spec empty_missing_error).
Proof. repeat split. discriminate. Qed.

(** C8. For every ApiError whose max_request is set to 0 the message is the
    headline, the clauses of missing and invalid, then the clause
    [. Maximum allowed requests: 0], then the clause of interval; for every
    one whose interval is set to 0 the message ends with the clause
    [. Time interval in seconds: 0], after the headline and the clauses of
    missing, invalid and max_request.  A field that is set to any number has
    its clause at that place, and a field that is not set has none: what
    counts is that the field is set, not the truth value of what it holds. *)
Theorem zero_limits_keep_their_clauses (e : ApiError) :
  (ae_max_request e = Some 0 ->
   format_error_msg (payload e)
   = ok (headline e
         +:+ clause ". Missing input parameters: " render_list (nonempty (ae_missing e))
         +:+ clause ". Invalid input parameters: " render_list (nonempty (ae_invalid e))
         +:+ ". Maximum allowed requests: 0"
         +:+ clause ". Time interval in seconds: " pretty (ae_interval e)))
  /\ (ae_interval e = Some 0 ->
      format_error_msg (payload e)
      = ok (headline e
            +:+ clause ". Missing input parameters: " render_list (nonempty (ae_missing e))
            +:+ clause ". Invalid input parameters: " render_list (nonempty (ae_invalid e))
            +:+ clause ". Maximum allowed requests: " pretty (ae_max_request e)
            +:+ ". Time interval in seconds: 0"))
  /\ (forall z, ae_max_request e = Some z ->
      format_error_msg (payload e)
      = ok (headline e
            +:+ clause ". Missing input parameters: " render_list (nonempty (ae_missing e))
            +:+ clause ". Invalid input parameters: " render_list (nonempty (ae_invalid e))
            +:+ (". Maximum allowed requests: " +:+ pretty z)
            +:+ clause ". Time interval in seconds: " pretty (ae_interval e)))
  /\ (forall z, ae_interval e = Some z ->
      format_error_msg (payload e)
      = ok (headline e
            +:+ clause ". Missing input parameters: " render_list (nonempty (ae_missing e))
            +:+ clause ". Invalid input parameters: " render_list (nonempty (ae_invalid e))
            +:+ clause ". Maximum allowed requests: " pretty (ae_max_request e)
            +:+ (". Time interval in seconds: " +:+ pretty z)))
  /\ (ae_max_request e = None ->
      format_error_msg (payload e)
      = ok (headline e
            +:+ clause ". Missing input parameters: " render_list (nonempty (ae_missing e))
            +:+ clause ". Invalid input parameters: " render_list (nonempty (ae_invalid e))
            +:+ clause ". Time interval in seconds: " pretty (ae_interval e)))
  /\ (ae_interval e = None ->
      format_error_msg (payload e)
      = ok (headline e
            +:+ clause ". Missing input parameters: " render_list (nonempty (ae_missing e))
            +:+ clause ". Invalid input parameters: " render_list (nonempty (ae_invalid e))
            +:+ clause ". Maximum allowed requests: " pretty (ae_max_request e))).
Proof.
  rewrite format_error_msg_payload. repeat split; intros; match goal with
    | H : _ = _ |- _ => rewrite H
    end.
  - reflexivity.
  - reflexivity.
  - reflexivity.
  - reflexivity.
  - unfold clause at 3. now rewrite append_nil_l.
  - unfold clause at 4. now rewrite append_nil_r.
Qed.

Lemma zero_limits_keep_their_clauses_witness :
  format_error_msg (payload zero_limits_error)
  = ok "Request failed: 403 RATE_LIMIT_EXCEEDED (rate limit exceeded). Maximum allowed requests: 0. Time interval in seconds: 0"
  /\ format_error_msg (payload bare_error)
     = ok "Request failed: 404 SERVER_NOT_FOUND (server not found)".
Proof.
  split.
  - rewrite (proj1 (zero_limits_keep_their_clauses zero_limits_error) eq_refl).
    reflexivity.
  - destruct (zero_limits_keep_their_clauses bare_error) as (_ & _ & _ & _ & _ & H).
    rewrite (H eq_refl). reflexivity.
Defined.

Example nested_list_message :
  format_error_msg
    (JObject [("status", JInt 400); ("code", JString "INVALID_INPUT");
              ("message", JString "invalid input");
              ("missing", JList [JString "it's"; JList [JInt 1; JNull]]);
              ("invalid", JList []); ("max_request", JNull); ("interval", JInt 0)])
  = ok ("Request failed: 400 INVALID_INPUT (invalid input). Missing input parameters: ["
        +:+ String dquote "it's" +:+ String dquote ", ['1', 'None']]"
        +:+ ". Time interval in seconds: 0").
Proof. vm_compute. reflexivity. Qed.

Example no_status_is_a_key_error :
  format_error_msg (JObject [("code", JString "X")]) = raise (KeyError "status")
  /\ format_error_msg (JString "error") = raise TypeError.
Proof. split; reflexivity. Qed.

Example zero_limits_message :
  format_error_msg (payload zero_limits_error)
  = ok "Request failed: 403 RATE_LIMIT_EXCEEDED (rate limit exceeded). Maximum allowed requests: 0. Time interval in seconds: 0".
Proof. vm_compute. reflexivity. Qed.

(** ** The request executors *)

Lemma empty_allowed_true (opts : request_opts) (status : Z) :
  empty_allowed opts status ->
  allow_empty_result opts && status_allowed status (allowed_empty_result_status_codes opts)
  = true.
Proof.
  intros [-> Hin]. unfold status_allowed. now rewrite bool_decide_eq_true_2.
Qed.

Lemma empty_allowed_false (opts : request_opts) (status : Z) :
  ~ empty_allowed opts status ->
  allow_empty_result opts && status_allowed status (allowed_empty_result_status_codes opts)
  = false.
Proof.
  intros Hno. unfold empty_allowed, status_allowed in *.
  destruct (allow_empty_result opts); [simpl | reflexivity].
  apply bool_decide_eq_false_2. intros Hin. apply Hno. auto.
Qed.

(** C5. For every response with an empty body, either executor returns
    (None, None) when allow_empty_result is true and the status is one of the
    allowed ones, and in every other case fails with the message of an empty
    response, which carries the URL and the status code. *)
Theorem empty_body_outcome (json_loads : bytes -> option json) (url : string)
    (opts : request_opts) :
  (forall reply status,
     read_reply reply url = ok (status, EmptyString) ->
     (empty_allowed opts status ->
      plugin_open_url_json json_loads reply url opts = ok (None, None))
     /\ (~ empty_allowed opts status ->
         plugin_open_url_json json_loads reply url opts
         = raise (PluginException (empty_response_msg url status))))
  /\ (forall resp info,
        no_content (read_content resp info) = true ->
        (empty_allowed opts (info_status info) ->
         fetch_url_json_of json_loads resp info url opts = ok (None, None))
        /\ (~ empty_allowed opts (info_status info) ->
            fetch_url_json_of json_loads resp info url opts
            = raise (FailJson (empty_response_msg url (info_status info)) None))).
Proof.
  split.
  - intros reply status Hread. unfold plugin_open_url_json. rewrite Hread. run_ok.
    change (is_empty EmptyString) with true. cbv iota.
    split; intros H.
    + now rewrite (empty_allowed_true _ _ H).
    + now rewrite (empty_allowed_false _ _ H).
  - intros resp info Hno. unfold fetch_url_json_of. cbv zeta. rewrite Hno.
    split; intros H.
    + now rewrite (empty_allowed_true _ _ H).
    + now rewrite (empty_allowed_false _ _ H).
Qed.

Lemma empty_body_outcome_witness :
  plugin_open_url_json (sample_loads bare_error) (Response 204 EmptyString) sample_url allowing_empty
  = ok (None, None)
  /\ fetch_url_json_of (sample_loads bare_error) (RespOpen EmptyString)
       {| info_status := 204; info_body := None |} sample_url default_opts
     = raise (FailJson (empty_response_msg sample_url 204) None).
Proof.
  split.
  - apply (empty_body_outcome (sample_loads bare_error) sample_url allowing_empty)
      with (status := 204); [reflexivity |].
    split; [reflexivity | simpl; rewrite !elem_of_cons; lia].
  - apply (empty_body_outcome (sample_loads bare_error) sample_url default_opts);
      [reflexivity |].
    intros [H _]; discriminate H.
Defined.


(** C10. When an HTTP error has a status and its body cannot be read,
    [plugin_open_url_json] takes the body for empty: it returns (None, None)
    when allow_empty_result is true and the status is one of the allowed
    ones, and otherwise fails with the message of an empty response, which
    reports that status; the failure is never the one of the transport. *)
Theorem unreadable_http_error_is_empty (json_loads : bytes -> option json)
    (url : string) (opts : request_opts) (status : Z) :
  (empty_allowed opts status ->
   plugin_open_url_json json_loads (HTTPError status None) url opts = ok (None, None))
  /\ (~ empty_allowed opts status ->
      plugin_open_url_json json_loads (HTTPError status None) url opts
      = raise (PluginException (empty_response_msg url status)))
  /\ (forall cause,
        plugin_open_url_json json_loads (HTTPError status None) url opts
        <> raise (PluginException (transport_failure_msg url cause))).
Proof.
  assert (Hread : read_reply (HTTPError status None) url = ok (status, EmptyString))
    by reflexivity.
  destruct (empty_body_outcome json_loads url opts) as [Hplugin _].
  destruct (Hplugin _ _ Hread) as [Hyes Hno].
  split; [exact Hyes | split; [exact Hno |]].
  intros cause. destruct (decide (empty_allowed opts status)) as [H|H].
  - rewrite (Hyes H). discriminate.
  - rewrite (Hno H). discriminate.
Qed.

Lemma unreadable_http_error_is_empty_witness :
  plugin_open_url_json (sample_loads bare_error) (HTTPError 204 None) sample_url allowing_empty
  = ok (None, None)
  /\ plugin_open_url_json (sample_loads bare_error) (HTTPError 500 None) sample_url allowing_empty
     = raise (PluginException (empty_response_msg sample_url 500)).
Proof.
  split.
  - apply (unreadable_http_error_is_empty (sample_loads bare_error) sample_url allowing_empty 204).
    split; [reflexivity | simpl; rewrite !elem_of_cons; lia].
  - apply (unreadable_http_error_is_empty (sample_loads bare_error) sample_url allowing_empty 500).
    intros [_ H]. simpl in H. rewrite !elem_of_cons, elem_of_nil in H. lia.
Defined.

Lemma format_error_msg_needs_code (error : json) (msg : string) :
  format_error_msg error = ok msg -> exists code, getitem error "code" = ok code.
Proof.
  unfold format_error_msg. intros H.
  destruct (getitem error "status") as [e|status]; [discriminate H |].
  destruct (getitem error "code") as [e|code]; [discriminate H | eauto].
Qed.

Lemma accepted_codes_truthy (opts : request_opts) (error : json) (c : string) :
  code_accepted opts error c -> accept_errors_truthy (accept_errors opts) = true.
Proof.
  intros (_ & codes & -> & Hin). destruct codes; [| reflexivity].
  now apply elem_of_nil in Hin.
Qed.

(** The decoded body with an [error] item: accepted, or a failure with the
    formatter's message. *)
Lemma decoded_result_error (fail : string -> json -> exn) (opts : request_opts)
    (d : list (string * json)) (error : json) :
  dict_get "error" d = Some error ->
  (forall c, code_accepted opts error c ->
     decoded_result fail opts (JObject d) = ok (Some (JObject d), Some (JString c)))
  /\ ((forall c, ~ code_accepted opts error c) ->
      forall msg, format_error_msg error = ok msg ->
        decoded_result fail opts (JObject d) = raise (fail msg error)).
Proof.
  intros Herr.
  assert (Hin : py_in "error" (JObject d) = ok true).
  { unfold py_in. now rewrite Herr. }
  assert (Hget : getitem (JObject d) "error" = ok error).
  { unfold getitem. now rewrite Herr. }
  unfold decoded_result. rewrite Hin. run_ok. rewrite !Hget. split.
  - intros c Hacc. rewrite (accepted_codes_truthy _ _ _ Hacc).
    destruct Hacc as (Hcode & codes & Hcodes & Hmem).
    run_ok. rewrite Hcode. run_ok. rewrite Hcodes. simpl.
    now rewrite bool_decide_eq_true_2.
  - intros Hnone msg Hmsg.
    assert (Hacc : (if accept_errors_truthy (accept_errors opts)
                    then error0 ← ok error;
                         code ← getitem error0 "code";
                         if code_in code (default [] (accept_errors opts))
                         then mret (Some code) else mret None
                    else mret None) = ok None).
    { destruct (accept_errors_truthy (accept_errors opts)) eqn:Htruthy; [| reflexivity].
      run_ok. destruct (format_error_msg_needs_code _ _ Hmsg) as [code Hcode].
      rewrite Hcode. run_ok.
      destruct (code_in code (default [] (accept_errors opts))) eqn:Hmem; [| reflexivity].
      exfalso. destruct code as [| | |c| |]; try discriminate Hmem.
      apply (Hnone c). split; [exact Hcode |].
      destruct (accept_errors opts) as [codes|]; [| discriminate Htruthy].
      exists codes. split; [reflexivity |].
      simpl in Hmem. now apply bool_decide_eq_true_1 in Hmem. }
    rewrite Hacc. run_ok. rewrite Hmsg. reflexivity.
Qed.

(** C4. For every response whose decoded body is an object with an [error]
    item: when the error's code is one of accept_errors, either executor
    returns the whole decoded body with that code; otherwise it fails, and
    the message of the failure is the output of the formatter on that error
    object (the module's executor hands the error object over as well). *)
Theorem error_field_outcome (json_loads : bytes -> option json) (url : string)
    (opts : request_opts) (body : bytes) (d : list (string * json)) (error : json) :
  is_empty body = false ->
  json_loads body = Some (JObject d) ->
  dict_get "error" d = Some error ->
  (forall c, code_accepted opts error c ->
     (forall reply status, read_reply reply url = ok (status, body) ->
        plugin_open_url_json json_loads reply url opts
        = ok (Some (JObject d), Some (JString c)))
     /\ (forall resp info, read_content resp info = Some body ->
          fetch_url_json_of json_loads resp info url opts
          = ok (Some (JObject d), Some (JString c))))
  /\ ((forall c, ~ code_accepted opts error c) ->
      forall msg, format_error_msg error = ok msg ->
        (forall reply status, read_reply reply url = ok (status, body) ->
           plugin_open_url_json json_loads reply url opts = raise (PluginException msg))
        /\ (forall resp info, read_content resp info = Some body ->
             fetch_url_json_of json_loads resp info url opts
             = raise (FailJson msg (Some error)))).
Proof.
  intros Hbody Hjson Herr.
  assert (Hplugin : forall reply status, read_reply reply url = ok (status, body) ->
            plugin_open_url_json json_loads reply url opts
            = decoded_result (fun msg _ => PluginException msg) opts (JObject d)).
  { intros reply status Hread. unfold plugin_open_url_json.
    rewrite Hread. run_ok. now rewrite Hbody, Hjson. }
  assert (Hmodule : forall resp info, read_content resp info = Some body ->
            fetch_url_json_of json_loads resp info url opts
            = decoded_result (fun msg error => FailJson msg (Some error)) opts (JObject d)).
  { intros resp info Hread. unfold fetch_url_json_of. cbv zeta.
    rewrite Hread. simpl. now rewrite Hbody, Hjson. }
  destruct (decoded_result_error (fun msg _ => PluginException msg) opts d error Herr)
    as [Hyes Hno].
  destruct (decoded_result_error (fun msg error => FailJson msg (Some error))
              opts d error Herr) as [Hyes' Hno'].
  split.
  - intros c Hacc. split.
    + intros reply status Hread. rewrite (Hplugin _ _ Hread). now apply Hyes.
    + intros resp info Hread. rewrite (Hmodule _ _ Hread). now apply Hyes'.
  - intros Hnone msg Hmsg. split.
    + intros reply status Hread. rewrite (Hplugin _ _ Hread). now apply Hno.
    + intros resp info Hread. rewrite (Hmodule _ _ Hread). now apply Hno'.
Qed.

Lemma error_field_outcome_witness :
  plugin_open_url_json (sample_loads bare_error) (HTTPError 404 (Some "{}")) sample_url
    (accepting ["SERVER_NOT_FOUND"])
  = ok (Some (JObject [("error", payload bare_error)]), Some (JString "SERVER_NOT_FOUND"))
  /\ fetch_url_json_of (sample_loads bare_error) RespNone
       {| info_status := 404; info_body := Some "{}" |} sample_url default_opts
     = raise (FailJson "Request failed: 404 SERVER_NOT_FOUND (server not found)"
                       (Some (payload bare_error))).
Proof.
  split.
  - apply (error_field_outcome (sample_loads bare_error) sample_url
             (accepting ["SERVER_NOT_FOUND"]) "{}" [("error", payload bare_error)]
             (payload bare_error) eq_refl eq_refl eq_refl)
      with (status := 404); [| reflexivity].
    split; [reflexivity |].
    exists ["SERVER_NOT_FOUND"]. split; [reflexivity | apply list_elem_of_here].
  - apply (error_field_outcome (sample_loads bare_error) sample_url
             default_opts "{}" [("error", payload bare_error)]
             (payload bare_error) eq_refl eq_refl eq_refl); [| reflexivity | reflexivity].
    intros c (_ & codes & Hcodes & _). discriminate Hcodes.
Defined.

(** ** The poller *)

Section PollerFacts.

Variable json_loads : bytes -> option json.
Variable fetch_url : world -> fetch_resp * fetch_info * Z.
Variable url : string.
Variable check : option json -> option json -> bool.
Variable delay timeout : Z.
Variable kwargs : request_opts.

Notation request := (fetch_url_json json_loads fetch_url url kwargs).
Notation loop := (retry_loop json_loads fetch_url url check delay timeout kwargs).
Notation poller :=
  (fetch_url_json_with_retries json_loads fetch_url url check delay timeout kwargs).

(** A request always comes back, and adds itself to the log. *)
Lemma request_run (w : world) :
  exists outcome took,
    request w = Some (outcome, {| clock := clock w + took;
                                  log := log w ++ [Requested (clock w) outcome] |}).
Proof.
  unfold fetch_url_json. destruct (fetch_url w) as [[resp info] took]. eauto.
Qed.

Notation rested := (after_sleep delay timeout).

(** One round of the loop. *)
Lemma retry_loop_round (fuel : nat) (start : Z) (w : world) :
  loop (S fuel) start w =
  match request (rested start w) with
  | Some (inr (result, error), w') =>
      if check result error then Some (ok (result, error), w')
      else if timeout - (clock w - start) <? delay
           then Some (raise (CheckDoneTimeoutException result error), w')
           else loop fuel start w'
  | Some (inl e, w') => Some (raise e, w')
  | None => None
  end.
Proof.
  unfold after_sleep. simpl. unfold mbind, io_mbind, io_bind, time_time, time_sleep. simpl.
  destruct (request _) as [[[e|[result error]] w']|]; try reflexivity.
  destruct (check result error); [reflexivity |].
  destruct (_ <? _); reflexivity.
Qed.

(** The poller before the loop. *)
Lemma poller_start (fuel : nat) (skip_first : bool) (w : world) :
  poller fuel skip_first w =
  if skip_first then loop fuel (clock w) w
  else match request w with
       | Some (inr (result, error), w') =>
           if check result error then Some (ok (result, error), w')
           else loop fuel (clock w) w'
       | Some (inl e, w') => Some (raise e, w')
       | None => None
       end.
Proof.
  unfold fetch_url_json_with_retries, mbind, io_mbind, io_bind, time_time. simpl.
  destruct skip_first; simpl; [reflexivity |].
  destruct (request w) as [[[e|[result error]] w']|]; try reflexivity.
  destruct (check result error); reflexivity.
Qed.

(** The loop ends: with a positive delay and calls that take no negative
    time, [n] rounds more than the one that is always made suffice when less
    than [n] delays are left. *)
Lemma retry_loop_terminates (n : nat) (start : Z) (w : world) :
  0 < delay ->
  (forall w', 0 <= (fetch_url w').2) ->
  timeout - (clock w - start) < delay * Z.of_nat n ->
  exists r w1, loop (S n) start w = Some (r, w1).
Proof.
  intros Hdelay Htook. revert w. induction n as [|n IH]; intros w Hleft;
    rewrite retry_loop_round;
    destruct (request (rested start w)) as [[[e|[result error]] w']|] eqn:Hreq;
    try (unfold fetch_url_json in Hreq;
         destruct (fetch_url (rested start w)) as [[resp info] took];
         discriminate Hreq);
    eauto.
  - destruct (check result error); [eauto |].
    destruct (Z.ltb_spec (timeout - (clock w - start)) delay); [eauto | lia].
  - destruct (check result error); [eauto |].
    destruct (Z.ltb_spec (timeout - (clock w - start)) delay) as [|Hge]; [eauto |].
    apply IH. unfold fetch_url_json in Hreq.
    pose proof (Htook (rested start w)) as Hnonneg.
    destruct (fetch_url (rested start w)) as [[resp info] took].
    injection Hreq as _ <-. simpl in *. lia.
Qed.

(** The events the loop adds follow [poll_trace]. *)
Lemma retry_loop_trace (fuel : nat) (start : Z) (w w1 : world)
    (r : Py.result (option json * option json)) :
  loop fuel start w = Some (r, w1) ->
  exists new, log w1 = log w ++ new /\ poll_trace check new r.
Proof.
  revert w. induction fuel as [|fuel IH]; intros w Hrun; [discriminate Hrun |].
  rewrite retry_loop_round in Hrun.
  destruct (request_run (rested start w)) as (outcome & took & Hreq).
  rewrite Hreq in Hrun. simpl in Hrun.
  destruct outcome as [e|[result error]].
  - injection Hrun as <- <-. simpl. rewrite <- app_assoc.
    eexists. split; [reflexivity |]. simpl. apply pt_sleep, pt_failed.
  - destruct (check result error) eqn:Hcheck.
    + injection Hrun as <- <-. simpl. rewrite <- app_assoc.
      eexists. split; [reflexivity |]. simpl. now apply pt_sleep, pt_done.
    + destruct (_ <? _).
      * injection Hrun as <- <-. simpl. rewrite <- app_assoc.
        eexists. split; [reflexivity |]. simpl. now apply pt_sleep, pt_timeout.
      * apply IH in Hrun as (new & Hlog & Htrace). simpl in Hlog.
        rewrite <- !app_assoc in Hlog.
        eexists. split; [exact Hlog |]. simpl. now apply pt_sleep, pt_retry.
Qed.

Lemma poller_trace (fuel : nat) (skip_first : bool) (w w1 : world)
    (r : Py.result (option json * option json)) :
  poller fuel skip_first w = Some (r, w1) ->
  exists new, log w1 = log w ++ new /\ poll_trace check new r.
Proof.
  rewrite poller_start. destruct skip_first; [apply retry_loop_trace |].
  destruct (request_run w) as (outcome & took & Hreq). rewrite Hreq.
  destruct outcome as [e|[result error]].
  - intros Hrun. injection Hrun as <- <-. eexists. split; [reflexivity |]. apply pt_failed.
  - destruct (check result error) eqn:Hcheck.
    + intros Hrun. injection Hrun as <- <-. eexists. split; [reflexivity |].
      now apply pt_done.
    + intros Hrun. apply retry_loop_trace in Hrun as (new & Hlog & Htrace).
      simpl in Hlog. rewrite <- app_assoc in Hlog.
      eexists. split; [exact Hlog |]. simpl. now apply pt_retry.
Qed.

Ltac split_trace H := simpl in H; unfold raise, ok in *; simplify_eq.

(** In such a run a failed request is the last event, and the run ends with
    its failure. *)
Lemma poll_trace_failure_last (new : list event)
    (r : Py.result (option json * option json)) :
  poll_trace check new r ->
  forall pre post t e, new = pre ++ Requested t (raise e) :: post ->
    post = [] /\ r = raise e.
Proof.
  induction 1 as [t0 e0|t0 res err Hc|t0 res err Hc|d tr r Htr IH|t0 res err tr r Hc Htr IH];
    intros pre post t e Heq.
  - destruct pre as [|ev [|ev' pre]]; split_trace Heq; auto.
  - destruct pre as [|ev [|ev' pre]]; split_trace Heq.
  - destruct pre as [|ev [|ev' pre]]; split_trace Heq.
  - destruct pre as [|ev pre]; split_trace Heq. eauto.
  - destruct pre as [|ev pre]; split_trace Heq. eauto.
Qed.

(** A request that another one follows came back, with an outcome that does
    not satisfy the predicate. *)
Lemma poll_trace_retry_cause (new : list event)
    (r : Py.result (option json * option json)) :
  poll_trace check new r ->
  forall pre post t o, new = pre ++ Requested t o :: post ->
    has_request post ->
    exists result error, o = ok (result, error) /\ check result error = false.
Proof.
  induction 1 as [t0 e0|t0 res err Hc|t0 res err Hc|d tr r Htr IH|t0 res err tr r Hc Htr IH];
    intros pre post t o Heq (t' & o' & Hin).
  - destruct pre as [|ev [|ev' pre]]; split_trace Heq. now apply elem_of_nil in Hin.
  - destruct pre as [|ev [|ev' pre]]; split_trace Heq. now apply elem_of_nil in Hin.
  - destruct pre as [|ev [|ev' pre]]; split_trace Heq. now apply elem_of_nil in Hin.
  - destruct pre as [|ev pre]; split_trace Heq. eapply IH; [reflexivity | exists t', o'; eauto].
  - destruct pre as [|ev pre]; split_trace Heq; [eauto |].
    eapply IH; [reflexivity | exists t', o'; eauto].
Qed.

(** C3. For every invocation of the poller: a request that fails ends the
    poller at once with that failure, first request or request of a round
    alike, and in the events of a finished run a failed request is the last
    one, with its failure as the result; a request that another one follows
    came back with an outcome on which check_done is false. *)
Theorem request_failure_propagates (fuel : nat) (skip_first : bool) (w : world) :
  (forall e w', request w = Some (raise e, w') ->
     poller fuel false w = Some (raise e, w'))
  /\ (forall start w0 e w', request (rested start w0) = Some (raise e, w') ->
       loop (S fuel) start w0 = Some (raise e, w'))
  /\ (forall r w1, poller fuel skip_first w = Some (r, w1) ->
       exists new,
         log w1 = log w ++ new
         /\ (forall pre post t e, new = pre ++ Requested t (raise e) :: post ->
              post = [] /\ r = raise e)
         /\ (forall pre post t o, new = pre ++ Requested t o :: post ->
              has_request post ->
              exists result error, o = ok (result, error) /\ check result error = false)).
Proof.
  split; [| split].
  - intros e w' Hreq. now rewrite poller_start, Hreq.
  - intros start w0 e w' Hreq. now rewrite retry_loop_round, Hreq.
  - intros r w1 Hrun. apply poller_trace in Hrun as (new & Hlog & Htrace).
    exists new. split; [exact Hlog | split].
    + exact (poll_trace_failure_last _ _ Htrace).
    + exact (poll_trace_retry_cause _ _ Htrace).
Qed.

End PollerFacts.

Lemma request_failure_propagates_witness :
  retry_loop loads_empty_object second_reply_empty sample_url never_done 10 180
    default_opts 1 43200 after_first_request
  = Some (raise (FailJson (empty_response_msg sample_url (-1)) None),
          {| clock := 43212;
             log := [Requested 43200 (ok (Some (JObject []), None)); Slept 10;
                     Requested 43211
                       (raise (FailJson (empty_response_msg sample_url (-1)) None))] |}).
Proof.
  apply (request_failure_propagates loads_empty_object second_reply_empty sample_url
           never_done 10 180 default_opts 0 false at_noon).
  reflexivity.
Defined.

Example failure_ends_the_poller :
  fetch_url_json_with_retries loads_empty_object second_reply_empty sample_url never_done
    10 180 default_opts 20 false at_noon
  = Some (raise (FailJson (empty_response_msg sample_url (-1)) None),
          {| clock := 43212;
             log := [Requested 43200 (ok (Some (JObject []), None)); Slept 10;
                     Requested 43211
                       (raise (FailJson (empty_response_msg sample_url (-1)) None))] |}).
Proof. vm_compute. reflexivity. Qed.

Section Scenarios.

#[local] Arguments retry_loop : simpl never.

Variable json_loads : bytes -> option json.
Variable fetch_url : world -> fetch_resp * fetch_info * Z.
Variable url : string.
Variable kwargs : request_opts.

Notation request := (fetch_url_json json_loads fetch_url url kwargs).

Lemma instant_request (c : Z) (lg : list event) :
  instant_success json_loads fetch_url url kwargs ->
  exists res,
    request {| clock := c; log := lg |}
    = Some (ok res, {| clock := c; log := lg ++ [Requested c (ok res)] |}).
Proof.
  intros Hinst. destruct (Hinst {| clock := c; log := lg |}) as (resp & info & res & Hf & Hres).
  exists res. unfold fetch_url_json. rewrite Hf, Hres. simpl. now rewrite Z.add_0_r.
Qed.

(** A round of the loop of the scenario, [el] seconds after the start, when a
    whole delay is left: it sleeps 10 seconds, asks, and goes on. *)
Lemma scenario_round_again (fuel : nat) (c el el' : Z) (lg : list event) :
  instant_success json_loads fetch_url url kwargs ->
  0 <= el <= 15 -> el' = el + 10 ->
  exists res,
    retry_loop json_loads fetch_url url (fun _ _ => false) 10 25 kwargs (S fuel) c
      {| clock := c + el; log := lg |}
    = retry_loop json_loads fetch_url url (fun _ _ => false) 10 25 kwargs fuel c
        {| clock := c + el';
           log := lg ++ [Slept 10; Requested (c + el') (ok res)] |}.
Proof.
  intros Hinst Hel ->. rewrite retry_loop_round. unfold after_sleep. simpl.
  replace (c + el - c) with el by lia.
  replace (Z.max (Z.min 10 (25 - el)) 0) with 10 by lia.
  replace (c + el + 10) with (c + (el + 10)) by lia.
  destruct (instant_request (c + (el + 10)) (lg ++ [Slept 10]) Hinst)
    as [[result error] Hreq].
  exists (result, error). rewrite Hreq.
  destruct (Z.ltb_spec (25 - el) 10) as [Hlt|_]; [lia |].
  now rewrite <- List.app_assoc.
Qed.

(** The round in which less than a delay is left: it sleeps what is left,
    asks, and raises the timeout. *)
Lemma scenario_round_last (fuel : nat) (c el : Z) (lg : list event) :
  instant_success json_loads fetch_url url kwargs ->
  15 < el <= 25 ->
  exists res,
    retry_loop json_loads fetch_url url (fun _ _ => false) 10 25 kwargs (S fuel) c
      {| clock := c + el; log := lg |}
    = Some (raise (CheckDoneTimeoutException res.1 res.2),
            {| clock := c + 25;
               log := lg ++ [Slept (25 - el); Requested (c + 25) (ok res)] |}).
Proof.
  intros Hinst Hel. rewrite retry_loop_round. unfold after_sleep. simpl.
  replace (c + el - c) with el by lia.
  replace (Z.max (Z.min 10 (25 - el)) 0) with (25 - el) by lia.
  replace (c + el + (25 - el)) with (c + 25) by lia.
  destruct (instant_request (c + 25) (lg ++ [Slept (25 - el)]) Hinst)
    as [[result error] Hreq].
  exists (result, error). rewrite Hreq.
  destruct (Z.ltb_spec (25 - el) 10) as [_|Hge]; [| lia].
  now rewrite <- List.app_assoc.
Qed.

(** C1, as the code has it.  With delay_seconds=10, timeout_seconds=25,
    skip_first=false, a check_done that is always false and requests that
    succeed at once, the poller makes four requests, 0, 10, 20 and 25 seconds
    after the start, the last one after a sleep cut to the 5 seconds that are
    left, and then raises the timeout with the outcome of the fourth; there
    is no fifth request. *)
Theorem poller_scenario_four_requests (fuel : nat) (w0 : world) :
  instant_success json_loads fetch_url url kwargs ->
  (3 <= fuel)%nat ->
  exists r1 r2 r3 r4,
    fetch_url_json_with_retries json_loads fetch_url url (fun _ _ => false) 10 25 kwargs
      fuel false w0
    = Some (raise (CheckDoneTimeoutException r4.1 r4.2),
            {| clock := clock w0 + 25;
               log := log w0 ++
                      [Requested (clock w0) (ok r1);
                       Slept 10; Requested (clock w0 + 10) (ok r2);
                       Slept 10; Requested (clock w0 + 20) (ok r3);
                       Slept 5; Requested (clock w0 + 25) (ok r4)] |}).
Proof.
  intros Hinst Hfuel. destruct w0 as [c lg]. simpl.
  destruct fuel as [|[|[|fuel]]]; try lia.
  rewrite poller_start.
  destruct (instant_request c lg Hinst) as [r1 Hreq1].
  rewrite Hreq1. destruct r1 as [res1 err1]. simpl.
  replace {| clock := c; log := lg ++ [Requested c (ok (res1, err1))] |}
    with {| clock := c + 0; log := lg ++ [Requested c (ok (res1, err1))] |}
    by (f_equal; lia).
  destruct (scenario_round_again (S (S fuel)) c 0 10
              (lg ++ [Requested c (ok (res1, err1))]) Hinst) as [r2 ->]; [lia | lia |].
  destruct (scenario_round_again (S fuel) c 10 20
              ((lg ++ [Requested c (ok (res1, err1))])
               ++ [Slept 10; Requested (c + 10) (ok r2)]) Hinst) as [r3 ->]; [lia | lia |].
  destruct (scenario_round_last fuel c 20
              (((lg ++ [Requested c (ok (res1, err1))])
                ++ [Slept 10; Requested (c + 10) (ok r2)])
               ++ [Slept 10; Requested (c + 20) (ok r3)]) Hinst) as [r4 ->]; [lia |].
  exists (res1, err1), r2, r3, r4. rewrite <- !List.app_assoc. reflexivity.
Qed.

(** C2, as the code has it.  For every invocation with skip_first=true whose
    first request inside the loop comes back with an outcome on which
    check_done is true, the poller first sleeps once, for the smaller of
    delay_seconds and timeout_seconds and not less than zero, then makes that
    one request, and returns its outcome. *)
Theorem skip_first_sleeps_then_asks_once (check : option json -> option json -> bool)
    (delay timeout : Z) (fuel : nat) (w0 : world)
    (resp : fetch_resp) (info : fetch_info) (took : Z)
    (res : option json * option json) :
  fetch_url {| clock := clock w0 + first_sleep delay timeout;
               log := log w0 ++ [Slept (first_sleep delay timeout)] |}
  = (resp, info, took) ->
  fetch_url_json_of json_loads resp info url kwargs = ok res ->
  check res.1 res.2 = true ->
  (1 <= fuel)%nat ->
  fetch_url_json_with_retries json_loads fetch_url url check delay timeout kwargs
    fuel true w0
  = Some (ok res,
          {| clock := clock w0 + first_sleep delay timeout + took;
             log := log w0 ++
                    [Slept (first_sleep delay timeout);
                     Requested (clock w0 + first_sleep delay timeout) (ok res)] |}).
Proof.
  intros Hfetch Hres Hcheck Hfuel. destruct fuel as [|fuel]; [lia |].
  rewrite poller_start. cbv iota. rewrite retry_loop_round.
  unfold after_sleep. rewrite Z.sub_diag, Z.sub_0_r. fold (first_sleep delay timeout).
  unfold fetch_url_json. cbn [clock log]. rewrite Hfetch, Hres.
  destruct res as [result error]. simpl in Hcheck. unfold ok. cbv iota beta.
  rewrite Hcheck. now rewrite <- List.app_assoc.
Qed.

End Scenarios.

Lemma poller_scenario_four_requests_witness :
  exists r1 r2 r3 r4,
    fetch_url_json_with_retries loads_empty_object instant_reply sample_url
      (fun _ _ => false) 10 25 default_opts 3 false at_noon
    = Some (raise (CheckDoneTimeoutException r4.1 r4.2),
            {| clock := clock at_noon + 25;
               log := log at_noon ++
                      [Requested (clock at_noon) (ok r1);
                       Slept 10; Requested (clock at_noon + 10) (ok r2);
                       Slept 10; Requested (clock at_noon + 20) (ok r3);
                       Slept 5; Requested (clock at_noon + 25) (ok r4)] |}).
Proof.
  apply (poller_scenario_four_requests loads_empty_object instant_reply sample_url
           default_opts 3 at_noon); [| lia].
  intros w. exists (RespOpen "{}"), {| info_status := 200; info_body := None |},
    (Some (JObject []), None).
  split; reflexivity.
Defined.

(** C1, as the specification words it, fails: the scenario has a fourth
    request, 25 seconds after the start. *)
Lemma poller_scenario_counterexample :
  (fun p => request_times 43200 (log p.2))
    <$> fetch_url_json_with_retries loads_empty_object instant_reply sample_url
          never_done 10 25 default_opts 10 false at_noon
  = Some [0; 10; 20; 25]
  /\ (fun p => request_times 43200 (log p.2))
       <$> fetch_url_json_with_retries loads_empty_object instant_reply sample_url
             never_done 10 25 default_opts 10 false at_noon
     <> Some [0; 10; 20].
Proof. split; [vm_compute; reflexivity | vm_compute; discriminate]. Qed.

Lemma skip_first_sleeps_then_asks_once_witness :
  fetch_url_json_with_retries loads_empty_object instant_reply sample_url always_done
    10 180 default_opts 1 true at_noon
  = Some (ok (Some (JObject []), None),
          {| clock := clock at_noon + first_sleep 10 180 + 0;
             log := log at_noon ++
                    [Slept (first_sleep 10 180);
                     Requested (clock at_noon + first_sleep 10 180)
                       (ok (Some (JObject []), None))] |}).
Proof.
  apply (skip_first_sleeps_then_asks_once loads_empty_object instant_reply sample_url
           default_opts always_done 10 180 1 at_noon
           (RespOpen "{}") {| info_status := 200; info_body := None |} 0
           (Some (JObject []), None));
    [reflexivity | reflexivity | reflexivity | lia].
Defined.

(** C2, as the specification words it, fails: with the default delay the
    poller sleeps 10 seconds before its one request. *)
Lemma skip_first_counterexample :
  (fun p => (sleeps (log p.2), request_times 43200 (log p.2)))
    <$> fetch_url_json_with_retries loads_empty_object instant_reply sample_url
          always_done 10 180 default_opts 10 true at_noon
  = Some ([10], [10])
  /\ (fun p => sleeps (log p.2))
       <$> fetch_url_json_with_retries loads_empty_object instant_reply sample_url
             always_done 10 180 default_opts 10 true at_noon
     <> Some [].
Proof. split; [vm_compute; reflexivity | vm_compute; discriminate]. Qed.

(** * Further properties *)

(** ** The form encoding helper *)

Lemma dict_of_items_list_to_map {V} (items : list (string * V)) :
  NoDup (items.*1) -> dict_of_items items = list_to_map items.
Proof.
  intros Hnd. apply map_eq. intros k. apply option_eq. intros x.
  rewrite (dict_of_items_lookup _ _ _ Hnd). now apply elem_of_list_to_map.
Qed.

(** X1. The mapping of the helper has as many items as the list has values:
    no value is lost to a clash of keys, and the empty list gives the empty
    mapping. *)
Theorem form_dict_size {V} (key : string) (values : list V) :
  size (get_x_www_form_urlenconded_dict_from_list key values) = length values.
Proof.
  assert (Hmany : size (dict_of_items (imap (fun i x => (indexed_key key i, x)) values))
                  = length values).
  { rewrite (dict_of_items_list_to_map _ (indexed_keys_NoDup key values)).
    rewrite (map_size_list_to_map _ (indexed_keys_NoDup key values)).
    apply length_imap. }
  destruct values as [|v [|v' values]]; [exact Hmany | | exact Hmany].
  apply map_size_singleton.
Qed.

Lemma pretty_N_go_length (x : N) (s : string) :
  (String.length s <= String.length (pretty_N_go x s))%nat.
Proof.
  revert s. induction (N.lt_wf_0 x) as [x _ IH]. intros s.
  destruct (decide (x = 0)%N) as [->|Hpos]; [now rewrite pretty_N_go_0 |].
  rewrite pretty_N_go_step by lia.
  etransitivity; [| apply IH; apply N.div_lt; lia]. simpl. lia.
Qed.

Lemma pretty_nat_nonempty (i : nat) : pretty i <> EmptyString.
Proof.
  unfold pretty, pretty_nat, pretty, pretty_N.
  destruct (decide (N.of_nat i = 0%N)) as [_|Hpos]; [discriminate |].
  intros Hempty. rewrite pretty_N_go_step in Hempty by lia.
  pose proof (pretty_N_go_length (N.of_nat i `div` 10)
                (String (pretty_N_char (N.of_nat i `mod` 10)) EmptyString)) as Hlen.
  rewrite Hempty in Hlen. simpl in Hlen. lia.
Qed.

Lemma bracket_key_not_indexed (key : string) (i : nat) :
  key +:+ "[]" <> indexed_key key i.
Proof.
  unfold indexed_key. intros H.
  apply (inj (String.append key)) in H.
  apply (inj (String.append "[")) in H.
  change "]" with (EmptyString +:+ "]") in H at 1.
  apply append_char_inj_r in H.
  now apply (pretty_nat_nonempty i).
Qed.

(** X2. The two encodings never mix: the mapping of a one-element list has no
    indexed key, and the mapping of any other list has no [key[]]. *)
Theorem form_dict_encodings_apart {V} (key : string) (values : list V) :
  (forall v (i : nat), values = [v] ->
     get_x_www_form_urlenconded_dict_from_list key values
       !! (key +:+ "[" +:+ pretty i +:+ "]") = None)
  /\ (length values <> 1%nat ->
      get_x_www_form_urlenconded_dict_from_list key values !! (key +:+ "[]") = None).
Proof.
  split.
  - intros v i ->. apply lookup_singleton_ne. apply bracket_key_not_indexed.
  - intros Hlen.
    assert (Hdef : get_x_www_form_urlenconded_dict_from_list key values
                   = dict_of_items (imap (fun i x => (indexed_key key i, x)) values)).
    { destruct values as [|v [|v' values]]; [reflexivity | simpl in Hlen; congruence | reflexivity]. }
    rewrite Hdef. apply eq_None_not_Some. intros [x Hx].
    apply (dict_of_items_lookup _ _ _ (indexed_keys_NoDup key values)) in Hx.
    apply elem_of_lookup_imap in Hx as (i & y & Heq & _).
    injection Heq as Hkey _. now apply (bracket_key_not_indexed key i).
Qed.

Lemma form_dict_encodings_apart_witness :
  get_x_www_form_urlenconded_dict_from_list "ip" ["10.0.0.1"]
    !! ("ip" +:+ "[" +:+ pretty 0%nat +:+ "]") = None
  /\ get_x_www_form_urlenconded_dict_from_list "ip" ["10.0.0.1"; "10.0.0.2"]
       !! ("ip" +:+ "[]") = None.
Proof.
  split.
  - exact (proj1 (form_dict_encodings_apart "ip" ["10.0.0.1"]) "10.0.0.1" 0%nat eq_refl).
  - apply (proj2 (form_dict_encodings_apart "ip" ["10.0.0.1"; "10.0.0.2"])). discriminate.
Defined.

(** ** The error formatter *)

(** X3. Formatting a value that is formatted already changes nothing. *)
Theorem format_list_idempotent (obj : json) :
  _format_list (_format_list obj) = _format_list obj.
Proof.
  induction obj as [| b | z | s | l IH | d _] using json_nested_ind; try reflexivity.
  simpl. f_equal. rewrite map_map.
  induction IH as [|x l Hx _ IHl]; simpl; [reflexivity | now rewrite Hx, IHl].
Qed.

(** X4. What [_format_list] returns is text, or a list of such values, and
    these are just the values that it leaves as they are. *)
Theorem format_list_shape (obj : json) :
  text_tree (_format_list obj)
  /\ (_format_list obj = obj <-> text_tree obj).
Proof.
  assert (Hshape : forall v, text_tree (_format_list v)).
  { intros v. induction v as [| b | z | s | l IH | d _] using json_nested_ind;
      try apply tt_text.
    simpl. apply tt_list. apply List.Forall_map. exact IH. }
  split; [apply Hshape | split].
  - intros <-. apply Hshape.
  - induction obj as [| b | z | s | l IH | d _] using json_nested_ind;
      intros Htree; inversion Htree as [s' | l' Hl]; subst; [reflexivity |].
    simpl. f_equal. clear Htree. revert IH Hl.
    induction l as [|x l IHl]; intros IH Hl; [reflexivity |].
    inversion IH as [|? ? Hx IH']; inversion Hl as [|? ? Hx' Hl']; subst.
    simpl. rewrite (Hx Hx'). f_equal. now apply IHl.
Qed.

Lemma optional_step (counts : json -> bool) (label : string) (render : json -> string)
    (d : list (string * json)) (k msg : string) :
  counts JNull = false ->
  append_if (counts (default JNull (dict_get k d))) msg
    (v ← getitem (JObject d) k; mret (label +:+ render v))
  = ok (msg +:+ optional_clause counts label render (dict_get k d)).
Proof.
  intros Hnull. unfold getitem, optional_clause, append_if.
  destruct (dict_get k d) as [v|]; simpl.
  - destruct (counts v); [reflexivity | now rewrite append_nil_r].
  - now rewrite Hnull, append_nil_r.
Qed.

(** The message for an object with the three items the headline needs. *)
Lemma format_error_msg_object (d : list (string * json)) (status code message : json) :
  dict_get "status" d = Some status ->
  dict_get "code" d = Some code ->
  dict_get "message" d = Some message ->
  format_error_msg (JObject d)
  = ok (("Request failed: " +:+ str status +:+ " " +:+ str code
         +:+ " (" +:+ str message +:+ ")")
        +:+ optional_clause truthy ". Missing input parameters: "
              (fun v => str (_format_list v)) (dict_get "missing" d)
        +:+ optional_clause truthy ". Invalid input parameters: "
              (fun v => str (_format_list v)) (dict_get "invalid" d)
        +:+ optional_clause is_not_None ". Maximum allowed requests: " str
              (dict_get "max_request" d)
        +:+ optional_clause is_not_None ". Time interval in seconds: " str
              (dict_get "interval" d)).
Proof.
  intros Hs Hc Hm. unfold format_error_msg.
  assert (Hget : forall k, getitem (JObject d) k
                           = match dict_get k d with
                             | Some v => ok v
                             | None => raise (KeyError k)
                             end) by reflexivity.
  rewrite (Hget "status"), (Hget "code"), (Hget "message"), Hs, Hc, Hm.
  unfold get. run_ok.
  rewrite (optional_step truthy _ (fun v => str (_format_list v))) by reflexivity. run_ok.
  rewrite (optional_step truthy _ (fun v => str (_format_list v))) by reflexivity. run_ok.
  rewrite (optional_step is_not_None _ str) by reflexivity. run_ok.
  rewrite (optional_step is_not_None _ str) by reflexivity. run_ok.
  now rewrite !append_assoc.
Qed.

(** What the formatter raises, and when. *)
Lemma format_error_msg_raises (error : json) :
  (is_object error = false -> format_error_msg error = raise TypeError)
  /\ (forall d, error = JObject d ->
        (dict_get "status" d = None -> format_error_msg error = raise (KeyError "status"))
        /\ (is_Some (dict_get "status" d) -> dict_get "code" d = None ->
            format_error_msg error = raise (KeyError "code"))
        /\ (is_Some (dict_get "status" d) -> is_Some (dict_get "code" d) ->
            dict_get "message" d = None ->
            format_error_msg error = raise (KeyError "message"))).
Proof.
  split.
  - destruct error; try reflexivity. discriminate.
  - intros d ->. unfold format_error_msg, getitem. repeat split.
    + now intros ->.
    + intros [s ->]. now intros ->.
    + intros [s ->] [c ->]. now intros ->.
Qed.

(** X5. On every object that has a status, a code and a message the formatter
    returns a message, whatever else the object holds: the headline, then
    the clause of each of missing and invalid whose value is truthy, then the
    clause of each of max_request and interval whose value is not None. *)
Theorem format_error_msg_on_objects (d : list (string * json))
    (status code message : json) :
  dict_get "status" d = Some status ->
  dict_get "code" d = Some code ->
  dict_get "message" d = Some message ->
  format_error_msg (JObject d)
  = ok (("Request failed: " +:+ str status +:+ " " +:+ str code
         +:+ " (" +:+ str message +:+ ")")
        +:+ optional_clause truthy ". Missing input parameters: "
              (fun v => str (_format_list v)) (dict_get "missing" d)
        +:+ optional_clause truthy ". Invalid input parameters: "
              (fun v => str (_format_list v)) (dict_get "invalid" d)
        +:+ optional_clause is_not_None ". Maximum allowed requests: " str
              (dict_get "max_request" d)
        +:+ optional_clause is_not_None ". Time interval in seconds: " str
              (dict_get "interval" d)).
Proof. apply format_error_msg_object. Qed.

Lemma format_error_msg_on_objects_witness :
  format_error_msg (JObject odd_error_object)
  = ok "Request failed: 403 RATE_LIMIT_EXCEEDED (too many). Missing input parameters: ip. Time interval in seconds: 60".
Proof.
  rewrite (format_error_msg_on_objects odd_error_object (JInt 403)
             (JString "RATE_LIMIT_EXCEEDED") (JString "too many") eq_refl eq_refl eq_refl).
  reflexivity.
Defined.

(** X6. The formatter raises TypeError on a value that is not an object, and
    on an object KeyError for the first of status, code and message that it
    lacks. *)
Theorem format_error_msg_errors (error : json) :
  (is_object error = false -> format_error_msg error = raise TypeError)
  /\ (forall d, error = JObject d ->
        (dict_get "status" d = None -> format_error_msg error = raise (KeyError "status"))
        /\ (is_Some (dict_get "status" d) -> dict_get "code" d = None ->
            format_error_msg error = raise (KeyError "code"))
        /\ (is_Some (dict_get "status" d) -> is_Some (dict_get "code" d) ->
            dict_get "message" d = None ->
            format_error_msg error = raise (KeyError "message"))).
Proof. apply format_error_msg_raises. Qed.

Lemma format_error_msg_errors_witness :
  format_error_msg (JList [JString "error"]) = raise TypeError
  /\ format_error_msg (JObject [("status", JInt 500); ("message", JString "oops")])
     = raise (KeyError "code").
Proof.
  split.
  - now apply (format_error_msg_errors (JList [JString "error"])).
  - apply (proj2 (format_error_msg_errors
                    (JObject [("status", JInt 500); ("message", JString "oops")]))
             _ eq_refl); [eexists; reflexivity | reflexivity].
Defined.

(** Every exception of the formatter is a TypeError or a KeyError. *)
Lemma format_error_msg_lookup_error (error : json) (e : exn) :
  format_error_msg error = raise e -> e = TypeError \/ exists k, e = KeyError k.
Proof.
  intros H. destruct (is_object error) eqn:Hobj.
  - destruct error as [| | | | |d]; try discriminate Hobj.
    destruct (format_error_msg_raises (JObject d)) as [_ Hd].
    destruct (Hd d eq_refl) as (Hs & Hc & Hm).
    destruct (dict_get "status" d) as [s|] eqn:Es;
      [| rewrite (Hs eq_refl) in H; injection H as <-; eauto].
    destruct (dict_get "code" d) as [c|] eqn:Ec;
      [| rewrite (Hc (ex_intro _ s eq_refl) eq_refl) in H; injection H as <-; eauto].
    destruct (dict_get "message" d) as [m|] eqn:Em;
      [| rewrite (Hm (ex_intro _ s eq_refl) (ex_intro _ c eq_refl) eq_refl) in H;
         injection H as <-; eauto].
    rewrite (format_error_msg_object d s c m Es Ec Em) in H. discriminate H.
  - destruct (format_error_msg_raises error) as [Hno _].
    rewrite (Hno Hobj) in H. injection H as <-. auto.
Qed.

(** X7. The message depends on the seven items of an error object only: two
    objects that agree on them get the same message, or the same exception. *)
Theorem format_error_msg_ignores_other_items (d d' : list (string * json)) :
  (forall k, k ∈ ["status"; "code"; "message"; "missing"; "invalid";
                  "max_request"; "interval"] ->
             dict_get k d = dict_get k d') ->
  format_error_msg (JObject d) = format_error_msg (JObject d').
Proof.
  intros Hsame. unfold format_error_msg, get.
  assert (Hin : forall k, k ∈ ["status"; "code"; "message"; "missing"; "invalid";
                               "max_request"; "interval"] ->
                          getitem (JObject d) k = getitem (JObject d') k
                          /\ dict_get k d = dict_get k d').
  { intros k Hin. split; [| now apply Hsame]. unfold getitem. now rewrite (Hsame k Hin). }
  destruct (Hin "status") as [-> _]; [set_solver |].
  destruct (Hin "code") as [-> _]; [set_solver |].
  destruct (Hin "message") as [-> _]; [set_solver |].
  destruct (Hin "missing") as [-> ->]; [set_solver |].
  destruct (Hin "invalid") as [-> ->]; [set_solver |].
  destruct (Hin "max_request") as [-> ->]; [set_solver |].
  destruct (Hin "interval") as [-> ->]; [set_solver |].
  reflexivity.
Qed.

Lemma format_error_msg_ignores_other_items_witness :
  format_error_msg (JObject [("status", JInt 404); ("trace", JString "f3a9");
                             ("code", JString "NOT_FOUND"); ("message", JString "gone")])
  = format_error_msg (JObject [("message", JString "gone"); ("code", JString "NOT_FOUND");
                               ("status", JInt 404)]).
Proof.
  apply format_error_msg_ignores_other_items.
  intros k Hk. rewrite !elem_of_cons, elem_of_nil in Hk.
  destruct Hk as [->|[->|[->|[->|[->|[->|[->|[]]]]]]]]; reflexivity.
Defined.

(** ** The request executors *)

Lemma is_empty_spec (body : bytes) : is_empty body = true <-> body = EmptyString.
Proof. unfold is_empty. apply String.eqb_eq. Qed.

Lemma is_empty_false (body : bytes) : is_empty body = false <-> body <> EmptyString.
Proof. unfold is_empty. apply String.eqb_neq. Qed.

Lemma plugin_decoded (json_loads : bytes -> option json) (reply : open_url_outcome)
    (url : string) (opts : request_opts) (status : Z) (body : bytes) (result : json) :
  read_reply reply url = ok (status, body) ->
  is_empty body = false ->
  json_loads body = Some result ->
  plugin_open_url_json json_loads reply url opts
  = decoded_result (fun msg _ => PluginException msg) opts result.
Proof.
  intros Hread Hbody Hjson. unfold plugin_open_url_json.
  rewrite Hread. run_ok. now rewrite Hbody, Hjson.
Qed.

Lemma module_decoded (json_loads : bytes -> option json) (resp : fetch_resp)
    (info : fetch_info) (url : string) (opts : request_opts) (body : bytes)
    (result : json) :
  read_content resp info = Some body ->
  is_empty body = false ->
  json_loads body = Some result ->
  fetch_url_json_of json_loads resp info url opts
  = decoded_result (fun msg error => FailJson msg (Some error)) opts result.
Proof.
  intros Hread Hbody Hjson. unfold fetch_url_json_of. cbv zeta.
  rewrite Hread. simpl. now rewrite Hbody, Hjson.
Qed.

Lemma accept_errors_truthy_codes (opts : request_opts) :
  accept_errors_truthy (accept_errors opts) = true <-> accepted_codes opts <> [].
Proof.
  unfold accepted_codes. destruct (accept_errors opts) as [[|c codes]|]; simpl;
    split; congruence.
Qed.

Lemma getitem_ok_object (obj : json) (k : string) (v : json) :
  getitem obj k = ok v <-> exists d, obj = JObject d /\ dict_get k d = Some v.
Proof.
  split.
  - destruct obj as [| | | | |d]; try discriminate. unfold getitem.
    destruct (dict_get k d) as [v'|] eqn:E; [| discriminate].
    intros H. injection H as <-. eauto.
  - intros (d & -> & H). unfold getitem. now rewrite H.
Qed.

Lemma code_in_spec (code : json) (codes : list string) :
  code_in code codes = true <-> exists c, code = JString c /\ c ∈ codes.
Proof.
  split.
  - destruct code as [| | |c| |]; try discriminate. simpl. intros H.
    apply bool_decide_eq_true_1 in H. eauto.
  - intros (c & -> & H). simpl. now apply bool_decide_eq_true_2.
Qed.

(** A decoded body without the [error] key is the result. *)
Lemma decoded_result_plain (fail : string -> json -> exn) (opts : request_opts)
    (result : json) :
  py_in "error" result = ok false ->
  decoded_result fail opts result = ok (Some result, None).
Proof. intros H. unfold decoded_result. now rewrite H. Qed.

(** A decoded body whose error has an accepted code is returned with it. *)
Lemma decoded_result_accepted (fail : string -> json -> exn) (opts : request_opts)
    (result error : json) (code : string) :
  getitem result "error" = ok error ->
  getitem error "code" = ok (JString code) ->
  code ∈ accepted_codes opts ->
  decoded_result fail opts result = ok (Some result, Some (JString code)).
Proof.
  intros Herr Hcode Hin.
  assert (Hpy : py_in "error" result = ok true).
  { apply getitem_ok_object in Herr as (d & -> & Hd). unfold py_in. now rewrite Hd. }
  assert (Htruthy : accept_errors_truthy (accept_errors opts) = true).
  { apply accept_errors_truthy_codes. intros Hnil. rewrite Hnil in Hin.
    now apply elem_of_nil in Hin. }
  unfold decoded_result. rewrite Hpy. run_ok.
  rewrite Htruthy, Herr. run_ok. rewrite Hcode. run_ok.
  fold (accepted_codes opts).
  now rewrite (proj2 (code_in_spec (JString code) (accepted_codes opts))) by eauto.
Qed.

(** What a returned pair of the decoded part is. *)
Lemma decoded_result_ok (fail : string -> json -> exn) (opts : request_opts)
    (result : json) (r c : option json) :
  decoded_result fail opts result = ok (r, c) ->
  r = Some result
  /\ ((c = None /\ py_in "error" result = ok false)
      \/ (exists error code,
            getitem result "error" = ok error
            /\ getitem error "code" = ok (JString code)
            /\ code ∈ accepted_codes opts
            /\ c = Some (JString code))).
Proof.
  unfold decoded_result.
  destruct (py_in "error" result) as [e|[|]]; [discriminate | | ].
  - destruct (accept_errors_truthy (accept_errors opts)).
    + destruct (getitem result "error") as [e|error] eqn:Herr; [discriminate |]. run_ok.
      destruct (getitem error "code") as [e|code] eqn:Hcode; [discriminate |]. run_ok.
      fold (accepted_codes opts).
      destruct (code_in code (accepted_codes opts)) eqn:Hin.
      * run_ok. intros H. injection H as <- <-.
        apply code_in_spec in Hin as (c' & -> & Hin).
        split; [reflexivity | right]. exists error, c'. auto.
      * run_ok. destruct (format_error_msg error); discriminate.
    + run_ok. destruct (getitem result "error") as [e|error]; [discriminate |]. run_ok.
      destruct (format_error_msg error); discriminate.
  - intros H. injection H as <- <-. auto.
Qed.

(** X8. A body that is not empty and does not decode makes either executor
    fail with the message that the content cannot be decoded, which carries
    the URL; accept_errors and allow_empty_result play no part. *)
Theorem undecodable_body (json_loads : bytes -> option json) (url : string)
    (opts : request_opts) (body : bytes) :
  body <> EmptyString ->
  json_loads body = None ->
  plugin_on_body json_loads url opts body
    (raise (PluginException ("Cannot decode content retrieved from " +:+ url)))
  /\ module_on_body json_loads url opts body
       (raise (FailJson ("Cannot decode content retrieved from " +:+ url) None)).
Proof.
  intros Hbody Hjson. apply is_empty_false in Hbody. split.
  - intros reply status Hread. unfold plugin_open_url_json.
    rewrite Hread. run_ok. now rewrite Hbody, Hjson.
  - intros resp info Hread. unfold fetch_url_json_of. cbv zeta.
    rewrite Hread. simpl. now rewrite Hbody, Hjson.
Qed.

Lemma undecodable_body_witness :
  plugin_open_url_json (fun _ => None) (HTTPError 502 (Some "<html>Bad Gateway</html>"))
    sample_url (accepting ["SERVER_NOT_FOUND"])
  = raise (PluginException ("Cannot decode content retrieved from " +:+ sample_url)).
Proof.
  apply (undecodable_body (fun _ => None) sample_url (accepting ["SERVER_NOT_FOUND"])
           "<html>Bad Gateway</html>") with (status := 502);
    [discriminate | reflexivity | reflexivity].
Defined.

(** X9. A body that decodes to an object without an [error] item is the
    result of either executor, with no error code, whatever accept_errors
    holds. *)
Theorem body_without_error (json_loads : bytes -> option json) (url : string)
    (opts : request_opts) (body : bytes) (d : list (string * json)) :
  body <> EmptyString ->
  json_loads body = Some (JObject d) ->
  dict_get "error" d = None ->
  executors_on_body json_loads url opts body (ok (Some (JObject d), None)).
Proof.
  intros Hbody Hjson Hnone. apply is_empty_false in Hbody.
  assert (Hpy : py_in "error" (JObject d) = ok false).
  { unfold py_in. now rewrite Hnone. }
  split.
  - intros reply status Hread. rewrite (plugin_decoded _ _ _ _ _ _ _ Hread Hbody Hjson).
    now apply decoded_result_plain.
  - intros resp info Hread. rewrite (module_decoded _ _ _ _ _ _ _ Hread Hbody Hjson).
    now apply decoded_result_plain.
Qed.

Lemma body_without_error_witness :
  fetch_url_json_of loads_empty_object RespClosed
    {| info_status := 200; info_body := Some "{}" |} sample_url
    (accepting ["SERVER_NOT_FOUND"])
  = ok (Some (JObject []), None).
Proof.
  apply (body_without_error loads_empty_object sample_url (accepting ["SERVER_NOT_FOUND"])
           "{}" []); [discriminate | reflexivity | reflexivity | reflexivity].
Defined.

(** X10. A pair that an executor returns is sound: it is (None, None) for an
    empty body that the caller allows for the status, or the decoded body
    with no code when the body has no error, or the decoded body with the
    code of its error, and then this code is one of accept_errors.  An error
    that is not accepted never comes back as a result. *)
Theorem returned_pair_sound (json_loads : bytes -> option json) (url : string)
    (opts : request_opts) (r c : option json) :
  (forall reply,
     plugin_open_url_json json_loads reply url opts = ok (r, c) ->
     exists status body,
       read_reply reply url = ok (status, body)
       /\ result_of_body json_loads opts status body r c)
  /\ (forall resp info,
        fetch_url_json_of json_loads resp info url opts = ok (r, c) ->
        result_of_body json_loads opts (info_status info)
          (default EmptyString (read_content resp info)) r c).
Proof.
  split.
  - intros reply. unfold plugin_open_url_json.
    destruct (read_reply reply url) as [e|[status body]] eqn:Hread; [discriminate |].
    run_ok. intros H. exists status, body. split; [reflexivity |].
    destruct (is_empty body) eqn:Hbody.
    + apply is_empty_spec in Hbody. left.
      destruct (decide (empty_allowed opts status)) as [Hyes|Hno].
      * rewrite (empty_allowed_true _ _ Hyes) in H. injection H as <- <-. auto.
      * rewrite (empty_allowed_false _ _ Hno) in H. discriminate H.
    + apply is_empty_false in Hbody. right. split; [exact Hbody |].
      destruct (json_loads body) as [result|]; [| discriminate H].
      apply decoded_result_ok in H as [-> H]. eauto.
  - intros resp info. unfold fetch_url_json_of. cbv zeta. intros H.
    destruct (read_content resp info) as [body|]; simpl in *.
    + destruct (is_empty body) eqn:Hbody.
      * apply is_empty_spec in Hbody. left.
        destruct (decide (empty_allowed opts (info_status info))) as [Hyes|Hno].
        -- rewrite (empty_allowed_true _ _ Hyes) in H. injection H as <- <-. auto.
        -- rewrite (empty_allowed_false _ _ Hno) in H. discriminate H.
      * apply is_empty_false in Hbody. right. split; [exact Hbody |].
        destruct (json_loads body) as [result|]; [| discriminate H].
        apply decoded_result_ok in H as [-> H]. eauto.
    + left. destruct (decide (empty_allowed opts (info_status info))) as [Hyes|Hno].
      * rewrite (empty_allowed_true _ _ Hyes) in H. injection H as <- <-. auto.
      * rewrite (empty_allowed_false _ _ Hno) in H. discriminate H.
Qed.

Lemma returned_pair_sound_witness :
  exists status body,
    read_reply (HTTPError 404 (Some "{}")) sample_url = ok (status, body)
    /\ result_of_body (sample_loads bare_error) (accepting ["SERVER_NOT_FOUND"]) status body
         (Some (JObject [("error", payload bare_error)]))
         (Some (JString "SERVER_NOT_FOUND")).
Proof.
  apply (returned_pair_sound (sample_loads bare_error) sample_url
           (accepting ["SERVER_NOT_FOUND"])).
  reflexivity.
Defined.

Lemma executors_decoded (json_loads : bytes -> option json) (url : string)
    (opts : request_opts) (body : bytes) (result : json)
    (out : Py.result (option json * option json)) :
  body <> EmptyString ->
  json_loads body = Some result ->
  (forall fail, decoded_result fail opts result = out) ->
  executors_on_body json_loads url opts body out.
Proof.
  intros Hbody Hjson Hout. apply is_empty_false in Hbody. split.
  - intros reply status Hread. now rewrite (plugin_decoded _ _ _ _ _ _ _ Hread Hbody Hjson).
  - intros resp info Hread. now rewrite (module_decoded _ _ _ _ _ _ _ Hread Hbody Hjson).
Qed.

Lemma existsb_error_item (l : list json) :
  existsb (fun x => match x with JString s => String.eqb s "error" | _ => false end) l
  = true <-> JString "error" ∈ l.
Proof.
  rewrite existsb_exists. split.
  - intros (x & Hin & Hx). destruct x as [| | |s| |]; try discriminate Hx.
    apply String.eqb_eq in Hx as ->. now apply list_elem_of_In.
  - intros Hin. exists (JString "error"). split; [now apply list_elem_of_In | reflexivity].
Qed.

(** X11. A body that decodes to a value that is not an object: null, a
    boolean or a number makes either executor raise TypeError, and so does a
    list with the item [error] and a text that has [error] in it; any other
    list or text is returned as the result. *)
Theorem non_object_body (json_loads : bytes -> option json) (url : string)
    (opts : request_opts) (body : bytes) (result : json) :
  body <> EmptyString ->
  json_loads body = Some result ->
  ((result = JNull \/ (exists b, result = JBool b) \/ (exists z, result = JInt z)) ->
   executors_on_body json_loads url opts body (raise TypeError))
  /\ (forall l, result = JList l ->
        (JString "error" ∈ l ->
         executors_on_body json_loads url opts body (raise TypeError))
        /\ (JString "error" ∉ l ->
            executors_on_body json_loads url opts body (ok (Some result, None))))
  /\ (forall s, result = JString s ->
        (is_substring "error" s = true ->
         executors_on_body json_loads url opts body (raise TypeError))
        /\ (is_substring "error" s = false ->
            executors_on_body json_loads url opts body (ok (Some result, None)))).
Proof.
  intros Hbody Hjson. split; [| split].
  - intros Hshape. apply (executors_decoded _ _ _ _ result); auto.
    intros fail. destruct Hshape as [-> | [[b ->] | [z ->]]]; reflexivity.
  - intros l ->. split; intros Hin;
      apply (executors_decoded _ _ _ _ (JList l)); auto; intros fail.
    + unfold decoded_result, py_in.
      rewrite (proj2 (existsb_error_item l) Hin). run_ok.
      destruct (accept_errors_truthy (accept_errors opts)); reflexivity.
    + apply decoded_result_plain. unfold py_in.
      destruct (existsb _ l) eqn:E; [| reflexivity].
      now apply existsb_error_item in E.
  - intros s ->. split; intros Hsub;
      apply (executors_decoded _ _ _ _ (JString s)); auto; intros fail.
    + unfold decoded_result, py_in. rewrite Hsub. run_ok.
      destruct (accept_errors_truthy (accept_errors opts)); reflexivity.
    + apply decoded_result_plain. unfold py_in. now rewrite Hsub.
Qed.

Lemma non_object_body_witness :
  plugin_open_url_json (fun _ => Some JNull) (Response 200 "null") sample_url default_opts
  = raise TypeError
  /\ plugin_open_url_json (fun _ => Some (JList [JString "error"])) (Response 200 "[..]")
       sample_url default_opts
     = raise TypeError.
Proof.
  split.
  - apply (proj1 (non_object_body (fun _ => Some JNull) sample_url default_opts "null"
                    JNull ltac:(discriminate) eq_refl)) with (status := 200);
      [auto | reflexivity].
  - destruct (non_object_body (fun _ => Some (JList [JString "error"])) sample_url
                default_opts "[..]" (JList [JString "error"]) ltac:(discriminate) eq_refl)
      as (_ & Hlist & _).
    apply (proj1 (Hlist _ eq_refl)) with (status := 200);
      [apply list_elem_of_here | reflexivity].
Defined.

(** X12. Accepting more codes never loses a result: what an executor returns
    for accept_errors it returns for every longer list of codes as well. *)
Theorem accepting_more_keeps_results (json_loads : bytes -> option json) (url : string)
    (opts : request_opts) (codes : list string)
    (x : option json * option json) :
  (forall c, c ∈ accepted_codes opts -> c ∈ codes) ->
  (forall reply,
     plugin_open_url_json json_loads reply url opts = ok x ->
     plugin_open_url_json json_loads reply url (with_accept_errors (Some codes) opts) = ok x)
  /\ (forall resp info,
        fetch_url_json_of json_loads resp info url opts = ok x ->
        fetch_url_json_of json_loads resp info url (with_accept_errors (Some codes) opts)
        = ok x).
Proof.
  intros Hsub.
  assert (Hdec : forall fail result,
            decoded_result fail opts result = ok x ->
            decoded_result fail (with_accept_errors (Some codes) opts) result = ok x).
  { intros fail result H. destruct x as [r c].
    apply decoded_result_ok in H as [-> [[-> Hpy] | (error & code & He & Hc & Hin & ->)]].
    - now apply decoded_result_plain.
    - apply (decoded_result_accepted _ _ _ error); auto. }
  split.
  - intros reply. unfold plugin_open_url_json.
    destruct (read_reply reply url) as [e|[status body]]; [discriminate |]. run_ok.
    destruct (is_empty body); [exact (fun H => H) |].
    destruct (json_loads body) as [result|]; [apply Hdec | discriminate].
  - intros resp info. unfold fetch_url_json_of. cbv zeta.
    destruct (no_content (read_content resp info)); [exact (fun H => H) |].
    destruct (json_loads _) as [result|]; [apply Hdec | discriminate].
Qed.

Lemma accepting_more_keeps_results_witness :
  plugin_open_url_json (sample_loads bare_error) (HTTPError 404 (Some "{}")) sample_url
    (with_accept_errors (Some ["RATE_LIMIT_EXCEEDED"; "SERVER_NOT_FOUND"])
       (accepting ["SERVER_NOT_FOUND"]))
  = ok (Some (JObject [("error", payload bare_error)]), Some (JString "SERVER_NOT_FOUND")).
Proof.
  apply (accepting_more_keeps_results (sample_loads bare_error) sample_url
           (accepting ["SERVER_NOT_FOUND"]) ["RATE_LIMIT_EXCEEDED"; "SERVER_NOT_FOUND"]).
  - intros c Hc. unfold accepted_codes in Hc. simpl in Hc.
    rewrite elem_of_cons, elem_of_nil in Hc. rewrite !elem_of_cons. tauto.
  - reflexivity.
Defined.

Lemma same_outcome_exn {A} (e : exn) : same_outcome (A := A) (inl e) (inl e).
Proof.
  destruct e; reflexivity.
Qed.

Lemma decoded_result_same (opts : request_opts) (result : json) :
  same_outcome (decoded_result (fun msg _ => PluginException msg) opts result)
               (decoded_result (fun msg error => FailJson msg (Some error)) opts result).
Proof.
  unfold decoded_result.
  destruct (py_in "error" result) as [e|[|]]; [apply same_outcome_exn | | reflexivity].
  run_ok.
  destruct (if accept_errors_truthy (accept_errors opts)
            then error ← getitem result "error";
                 code ← getitem error "code";
                 if code_in code (default [] (accept_errors opts))
                 then mret (Some code) else mret None
            else mret None) as [e|[code|]]; [apply same_outcome_exn | reflexivity |].
  run_ok. destruct (getitem result "error") as [e|error]; [apply same_outcome_exn |].
  run_ok. destruct (format_error_msg error) as [e|msg]; [apply same_outcome_exn |].
  reflexivity.
Qed.

(** X13. The two executors agree: on the same status and body, with the same
    options, they return the same pair, or fail with the same message (each
    with its own kind of failure), or raise the same exception. *)
Theorem executors_agree (json_loads : bytes -> option json) (url : string)
    (opts : request_opts) (reply : open_url_outcome) (resp : fetch_resp)
    (info : fetch_info) (body : bytes) :
  read_reply reply url = ok (info_status info, body) ->
  default EmptyString (read_content resp info) = body ->
  same_outcome (plugin_open_url_json json_loads reply url opts)
               (fetch_url_json_of json_loads resp info url opts).
Proof.
  intros Hread Hbody. unfold plugin_open_url_json, fetch_url_json_of. cbv zeta.
  rewrite Hread. run_ok.
  assert (Hno : no_content (read_content resp info) = is_empty body).
  { destruct (read_content resp info) as [b|]; simpl in *; now subst. }
  rewrite Hno, Hbody.
  destruct (is_empty body).
  - destruct (_ && _); reflexivity.
  - destruct (json_loads body) as [result|]; [apply decoded_result_same | reflexivity].
Qed.

Lemma executors_agree_witness :
  same_outcome
    (plugin_open_url_json (sample_loads bare_error) (HTTPError 404 (Some "{}")) sample_url
       default_opts)
    (fetch_url_json_of (sample_loads bare_error) RespNone
       {| info_status := 404; info_body := Some "{}" |} sample_url default_opts).
Proof.
  apply (executors_agree (sample_loads bare_error) sample_url default_opts
           (HTTPError 404 (Some "{}")) RespNone
           {| info_status := 404; info_body := Some "{}" |} "{}"); reflexivity.
Defined.

Lemma decoded_result_error_present (fail : string -> json -> exn) (opts : request_opts)
    (d : list (string * json)) (error : json) :
  dict_get "error" d = Some error ->
  decoded_result fail opts (JObject d)
  = (accepted ←
       (if accept_errors_truthy (accept_errors opts) then
          code ← getitem error "code";
          if code_in code (default [] (accept_errors opts))
          then mret (Some code) else mret None
        else mret None);
     match accepted with
     | Some code => mret (Some (JObject d), Some code)
     | None => msg ← format_error_msg error; raise (fail msg error)
     end).
Proof.
  intros Herr.
  assert (Hpy : py_in "error" (JObject d) = ok true).
  { unfold py_in. now rewrite Herr. }
  assert (Hget : getitem (JObject d) "error" = ok error).
  { unfold getitem. now rewrite Herr. }
  unfold decoded_result. rewrite Hpy. run_ok. rewrite !Hget.
  destruct (accept_errors_truthy (accept_errors opts)); reflexivity.
Qed.

(** X14. A body whose [error] item is not an error object: when the item is
    not an object at all, either executor raises TypeError; when it is an
    object without a code and the caller accepts some codes, either executor
    raises KeyError for [code], before the formatter is reached. *)
Theorem malformed_error_item (json_loads : bytes -> option json) (url : string)
    (opts : request_opts) (body : bytes) (d : list (string * json)) (error : json) :
  body <> EmptyString ->
  json_loads body = Some (JObject d) ->
  dict_get "error" d = Some error ->
  (is_object error = false ->
   executors_on_body json_loads url opts body (raise TypeError))
  /\ (forall ed, error = JObject ed -> dict_get "code" ed = None ->
        accepted_codes opts <> [] ->
        executors_on_body json_loads url opts body (raise (KeyError "code"))).
Proof.
  intros Hbody Hjson Herr. split.
  - intros Hobj. apply (executors_decoded _ _ _ _ (JObject d)); auto. intros fail.
    rewrite (decoded_result_error_present _ _ _ _ Herr).
    destruct (accept_errors_truthy (accept_errors opts)).
    + destruct error; try reflexivity. discriminate Hobj.
    + run_ok. now rewrite (proj1 (format_error_msg_raises error) Hobj).
  - intros ed -> Hcode Hcodes. apply (executors_decoded _ _ _ _ (JObject d)); auto.
    intros fail. rewrite (decoded_result_error_present _ _ _ _ Herr).
    rewrite (proj2 (accept_errors_truthy_codes opts) Hcodes).
    unfold getitem. now rewrite Hcode.
Qed.

Lemma malformed_error_item_witness :
  plugin_open_url_json (fun _ => Some (JObject [("error", JString "boom")]))
    (Response 500 "{..}") sample_url default_opts
  = raise TypeError
  /\ fetch_url_json_of (fun _ => Some (JObject [("error", JObject [("status", JInt 500)])]))
       (RespOpen "{..}") {| info_status := 500; info_body := None |} sample_url
       (accepting ["SERVER_NOT_FOUND"])
     = raise (KeyError "code").
Proof.
  split.
  - apply (proj1 (malformed_error_item (fun _ => Some (JObject [("error", JString "boom")]))
                    sample_url default_opts "{..}" [("error", JString "boom")]
                    (JString "boom") ltac:(discriminate) eq_refl eq_refl))
      with (status := 500); reflexivity.
  - apply (proj2 (malformed_error_item
                    (fun _ => Some (JObject [("error", JObject [("status", JInt 500)])]))
                    sample_url (accepting ["SERVER_NOT_FOUND"]) "{..}"
                    [("error", JObject [("status", JInt 500)])]
                    (JObject [("status", JInt 500)]) ltac:(discriminate) eq_refl eq_refl)
             [("status", JInt 500)] eq_refl eq_refl);
      [discriminate | reflexivity].
Defined.

Lemma getitem_lookup_error (obj : json) (k : string) (e : exn) :
  getitem obj k = raise e -> e = TypeError \/ exists k', e = KeyError k'.
Proof.
  unfold getitem. destruct obj as [| | | | |d]; try (intros H; injection H as <-; auto).
  destruct (dict_get k d); [discriminate |]. intros H; injection H as <-; eauto.
Qed.

Lemma py_in_lookup_error (k : string) (obj : json) (e : exn) :
  py_in k obj = raise e -> e = TypeError.
Proof.
  unfold py_in. destruct obj; try discriminate; intros H; now injection H as <-.
Qed.

Lemma decoded_result_raises (fail : string -> json -> exn) (opts : request_opts)
    (result : json) (e : exn) :
  decoded_result fail opts result = raise e ->
  (exists msg error, e = fail msg error) \/ e = TypeError \/ exists k, e = KeyError k.
Proof.
  unfold decoded_result.
  destruct (py_in "error" result) as [e0|[|]] eqn:Hpy.
  - intros H. injection H as <-. right. left. now apply py_in_lookup_error in Hpy.
  - run_ok. destruct (getitem result "error") as [e0|error] eqn:Herr.
    + apply getitem_lookup_error in Herr.
      destruct (accept_errors_truthy (accept_errors opts));
        intros H; injection H as <-; auto.
    + assert (Hfmt : (msg ← format_error_msg error; raise (fail msg error))
                     = (raise e : Py.result (option json * option json)) ->
                     (exists msg error, e = fail msg error) \/ e = TypeError
                     \/ exists k, e = KeyError k).
      { destruct (format_error_msg error) as [e0|msg] eqn:Hf.
        - apply format_error_msg_lookup_error in Hf. intros H; injection H as <-. auto.
        - intros H; injection H as <-. eauto. }
      destruct (accept_errors_truthy (accept_errors opts)); [| run_ok; exact Hfmt].
      run_ok. destruct (getitem error "code") as [e0|code] eqn:Hcode.
      * apply getitem_lookup_error in Hcode. intros H; injection H as <-. auto.
      * run_ok. destruct (code_in code _); [discriminate |]. run_ok. exact Hfmt.
  - discriminate.
Qed.

(** The exceptions of the two executors on the replies of [open_url_outcome]
    and on the answers of [fetch_resp]: an exception that comes from reading
    the body itself and that the code does not catch is no case of these
    types. *)
Lemma executor_raises (json_loads : bytes -> option json) (url : string)
    (opts : request_opts) (e : exn) :
  (forall reply,
     plugin_open_url_json json_loads reply url opts = raise e ->
     (exists msg, e = PluginException msg) \/ e = TypeError \/ exists k, e = KeyError k)
  /\ (forall resp info,
        fetch_url_json_of json_loads resp info url opts = raise e ->
        (exists msg error, e = FailJson msg error) \/ e = TypeError
        \/ exists k, e = KeyError k).
Proof.
  split.
  - intros reply. unfold plugin_open_url_json.
    destruct reply as [status body|status [body|]|cause]; simpl; run_ok.
    1,2: destruct (is_empty body);
      [destruct (_ && _); [discriminate | intros H; injection H as <-; eauto] |];
      destruct (json_loads body) as [result|]; [| intros H; injection H as <-; eauto];
      intros H; apply decoded_result_raises in H as [(msg & error & ->) | H]; eauto.
    + change (is_empty EmptyString) with true. cbv iota.
      destruct (_ && _); [discriminate | intros H; injection H as <-; eauto].
    + intros H; injection H as <-; eauto.
  - intros resp info. unfold fetch_url_json_of. cbv zeta.
    destruct (no_content (read_content resp info)).
    + destruct (_ && _); [discriminate | intros H; injection H as <-; eauto].
    + destruct (json_loads _) as [result|]; [| intros H; injection H as <-; eauto].
      intros H; apply decoded_result_raises in H as [(msg & error & ->) | H]; eauto.
Qed.

(** ** The parameters of the module *)

(** X16. The first statements of [fetch_url_json] hand the credentials on:
    with hetzner_user and hetzner_password set, url_username and url_password
    get their values and force_basic_auth becomes true, every other item of
    the parameters (the credentials too) stays as it was, and doing it again
    changes nothing; without hetzner_user, or with it and without
    hetzner_password, the KeyError of the missing one is raised. *)
Theorem set_auth_params_spec (params : gmap string json) :
  (forall user password,
     params !! "hetzner_user" = Some user ->
     params !! "hetzner_password" = Some password ->
     exists params',
       set_auth_params params = ok params'
       /\ params' !! "url_username" = Some user
       /\ params' !! "url_password" = Some password
       /\ params' !! "force_basic_auth" = Some (JBool true)
       /\ (forall k, k ∉ ["url_username"; "url_password"; "force_basic_auth"] ->
             params' !! k = params !! k)
       /\ set_auth_params params' = ok params')
  /\ (params !! "hetzner_user" = None ->
      set_auth_params params = raise (KeyError "hetzner_user"))
  /\ (is_Some (params !! "hetzner_user") -> params !! "hetzner_password" = None ->
      set_auth_params params = raise (KeyError "hetzner_password")).
Proof.
  split; [| split].
  - intros user password Hu Hp.
    assert (Hrun : forall p, p !! "hetzner_user" = Some user ->
                     p !! "hetzner_password" = Some password ->
                     set_auth_params p
                     = ok (<["force_basic_auth" := JBool true]>
                             (<["url_password" := password]>
                                (<["url_username" := user]> p)))).
    { intros p Hpu Hpp. unfold set_auth_params, params_getitem. rewrite Hpu. run_ok.
      rewrite lookup_insert_ne by discriminate. rewrite Hpp. reflexivity. }
    eexists. split; [apply (Hrun params Hu Hp) |]. repeat split.
    + rewrite !lookup_insert_ne by discriminate. apply lookup_insert_eq.
    + rewrite lookup_insert_ne by discriminate. apply lookup_insert_eq.
    + apply lookup_insert_eq.
    + intros k Hk. rewrite !not_elem_of_cons in Hk. destruct Hk as (H1 & H2 & H3 & _).
      now rewrite !lookup_insert_ne by congruence.
    + rewrite Hrun by (rewrite !lookup_insert_ne by discriminate; assumption).
      f_equal. apply map_eq. intros k.
      destruct (decide (k = "force_basic_auth")) as [->|H3];
        [now rewrite !lookup_insert_eq |].
      rewrite (lookup_insert_ne _ "force_basic_auth" k) by congruence.
      destruct (decide (k = "url_password")) as [->|H2].
      { rewrite lookup_insert_eq. rewrite lookup_insert_ne by discriminate.
        now rewrite lookup_insert_eq. }
      rewrite (lookup_insert_ne _ "url_password" k) by congruence.
      destruct (decide (k = "url_username")) as [->|H1].
      { rewrite lookup_insert_eq. rewrite !lookup_insert_ne by discriminate.
        now rewrite lookup_insert_eq. }
      now rewrite (lookup_insert_ne _ "url_username" k) by congruence.
  - intros Hu. unfold set_auth_params, params_getitem. now rewrite Hu.
  - intros [user Hu] Hp. unfold set_auth_params, params_getitem. rewrite Hu. run_ok.
    rewrite lookup_insert_ne by discriminate. now rewrite Hp.
Qed.

Lemma set_auth_params_spec_witness :
  exists params',
    set_auth_params {[ "hetzner_user" := JString "robot"; "hetzner_password" := JString "s3cret" ]}
    = ok params'
    /\ params' !! "url_username" = Some (JString "robot")
    /\ params' !! "url_password" = Some (JString "s3cret")
    /\ params' !! "force_basic_auth" = Some (JBool true)
    /\ (forall k, k ∉ ["url_username"; "url_password"; "force_basic_auth"] ->
          params' !! k
          = ({[ "hetzner_user" := JString "robot"; "hetzner_password" := JString "s3cret" ]}
               : gmap string json) !! k)
    /\ set_auth_params params' = ok params'.
Proof.
  apply (proj1 (set_auth_params_spec
                  {[ "hetzner_user" := JString "robot";
                     "hetzner_password" := JString "s3cret" ]}));
    reflexivity.
Defined.

(** ** The poller *)

Lemma requests_made_app (l1 l2 : list event) :
  requests_made (l1 ++ l2) = (requests_made l1 + requests_made l2)%nat.
Proof. unfold requests_made, request_times. now rewrite omap_app, length_app. Qed.

Lemma budget_rounds (delay timeout : Z) :
  0 < delay -> timeout < delay * (Z.of_nat (Z.to_nat (timeout / delay)) + 1).
Proof.
  intros Hdelay.
  pose proof (Z.div_mod timeout delay ltac:(lia)) as Hdm.
  pose proof (Z.mod_pos_bound timeout delay Hdelay) as Hmod.
  destruct (Z.le_gt_cases 0 (timeout / delay)) as [Hq|Hq].
  - rewrite Z2Nat.id by exact Hq. lia.
  - replace (Z.to_nat (timeout / delay)) with 0%nat by lia. nia.
Qed.

Section PollerBounds.

Variable json_loads : bytes -> option json.
Variable fetch_url : world -> fetch_resp * fetch_info * Z.
Variable url : string.
Variable check : option json -> option json -> bool.
Variable delay timeout : Z.
Variable kwargs : request_opts.

Notation request := (fetch_url_json json_loads fetch_url url kwargs).
Notation loop := (retry_loop json_loads fetch_url url check delay timeout kwargs).
Notation poller :=
  (fetch_url_json_with_retries json_loads fetch_url url check delay timeout kwargs).
Notation rested := (after_sleep delay timeout).

(** A request in full: its outcome, and the world after it. *)
Lemma request_world (w : world) :
  request w
  = Some (fetch_url_json_of json_loads (fetch_url w).1.1 (fetch_url w).1.2 url kwargs,
          {| clock := clock w + (fetch_url w).2;
             log := log w ++ [Requested (clock w)
                                (fetch_url_json_of json_loads (fetch_url w).1.1
                                   (fetch_url w).1.2 url kwargs)] |}).
Proof. unfold fetch_url_json. now destruct (fetch_url w) as [[resp info] took]. Qed.

(** A request never raises the exception of the timeout. *)
Lemma request_never_times_out (w w' : world) (res err : option json) :
  request w <> Some (raise (CheckDoneTimeoutException res err), w').
Proof.
  rewrite request_world. intros H. injection H as H _.
  apply (proj2 (executor_raises json_loads url kwargs _)) in H.
  destruct H as [(m & e & H) | [H | (k & H)]]; discriminate H.
Qed.

(** The loop ends within [n + 1] rounds when less than [n + 1] delays are
    left. *)
Lemma retry_loop_ends (n : nat) :
  0 < delay ->
  (forall w', 0 <= (fetch_url w').2) ->
  forall fuel start w,
    timeout - (clock w - start) < delay * (Z.of_nat n + 1) ->
    (n < fuel)%nat ->
    exists r w1, loop fuel start w = Some (r, w1).
Proof.
  intros Hdelay Htook. induction n as [|n IH]; intros fuel start w Hleft Hfuel;
    (destruct fuel as [|fuel]; [lia |]);
    rewrite retry_loop_round, request_world;
    destruct (fetch_url_json_of _ _ _ _ _) as [e|[result error]]; eauto;
    destruct (check result error); eauto;
    destruct (Z.ltb_spec (timeout - (clock w - start)) delay) as [Hlt|Hge]; eauto.
  - lia.
  - apply IH; [| lia]. pose proof (Htook (rested start w)) as Hnonneg.
    unfold after_sleep in *. simpl in *. lia.
Qed.

(** X17. The poller ends: with a positive delay and requests that take no
    negative time, a bound of more than timeout / delay rounds of the loop
    is enough for it to return or raise, whatever the requests answer. *)
Theorem poller_terminates (fuel : nat) (skip_first : bool) (w : world) :
  0 < delay ->
  (forall w', 0 <= (fetch_url w').2) ->
  (Z.to_nat (timeout / delay) < fuel)%nat ->
  exists r w1, poller fuel skip_first w = Some (r, w1).
Proof.
  intros Hdelay Htook Hfuel. pose proof (budget_rounds delay timeout Hdelay) as Hbudget.
  rewrite poller_start. destruct skip_first.
  - apply (retry_loop_ends (Z.to_nat (timeout / delay))); auto. lia.
  - rewrite request_world.
    destruct (fetch_url_json_of _ _ _ _ _) as [e|[result error]]; eauto.
    destruct (check result error); eauto.
    apply (retry_loop_ends (Z.to_nat (timeout / delay))); auto.
    pose proof (Htook w). simpl. lia.
Qed.

(** The loop makes at most [n + 1] requests when less than [n + 1] delays
    are left. *)
Lemma retry_loop_requests (n : nat) :
  0 < delay ->
  (forall w', 0 <= (fetch_url w').2) ->
  forall fuel start w r w1,
    timeout - (clock w - start) < delay * (Z.of_nat n + 1) ->
    loop fuel start w = Some (r, w1) ->
    exists new, log w1 = log w ++ new /\ (requests_made new <= S n)%nat.
Proof.
  intros Hdelay Htook.
  assert (Hone : forall start w t o c,
            exists new,
              log {| clock := c; log := log (rested start w) ++ [Requested t o] |}
              = log w ++ new /\ (requests_made new <= 1)%nat).
  { intros start w t o c. eexists. split.
    - unfold after_sleep. simpl. rewrite <- List.app_assoc. reflexivity.
    - unfold requests_made. simpl. lia. }
  assert (Hmore : forall start w t o c (m : nat),
            exists new,
              log {| clock := c; log := log (rested start w) ++ [Requested t o] |}
              = log w ++ new /\ (requests_made new <= S (S m))%nat).
  { intros start w t o c m. destruct (Hone start w t o c) as (new & Hlog & Hcount).
    exists new. split; [exact Hlog | lia]. }
  induction n as [|n IH]; intros fuel start w r w1 Hleft;
    (destruct fuel as [|fuel]; [discriminate |]);
    rewrite retry_loop_round, request_world;
    (destruct (fetch_url_json_of _ _ _ _ _) as [e|[result error]];
     [intros H; injection H as <- <-; solve [apply Hone | apply Hmore] |]);
    (destruct (check result error);
     [intros H; injection H as <- <-; solve [apply Hone | apply Hmore] |]);
    (destruct (Z.ltb_spec (timeout - (clock w - start)) delay) as [Hlt|Hge];
     [intros H; injection H as <- <-; solve [apply Hone | apply Hmore] |]).
  - lia.
  - intros Hrun. apply IH in Hrun as (new & Hlog & Hcount).
    + exists ([Slept (Z.max (Z.min delay (timeout - (clock w - start))) 0);
               Requested (clock (rested start w)) (ok (result, error))] ++ new).
      split.
      * rewrite Hlog. unfold after_sleep. simpl. now rewrite <- !List.app_assoc.
      * rewrite requests_made_app. unfold requests_made at 1. simpl. lia.
    + pose proof (Htook (rested start w)) as Hnonneg.
      unfold after_sleep in *. simpl in *. lia.
Qed.

(** X18. The number of requests is bounded by the budget: with a positive
    delay and requests that take no negative time, a run of the poller makes
    at most timeout / delay + 1 requests in its loop (one when the timeout
    is below the delay), and one more before it unless skip_first is set. *)
Theorem poller_request_bound (fuel : nat) (skip_first : bool) (w w1 : world)
    (r : Py.result (option json * option json)) :
  0 < delay ->
  (forall w', 0 <= (fetch_url w').2) ->
  poller fuel skip_first w = Some (r, w1) ->
  exists new,
    log w1 = log w ++ new
    /\ (requests_made new
        <= Z.to_nat (timeout / delay) + (if skip_first then 1 else 2))%nat.
Proof.
  intros Hdelay Htook. pose proof (budget_rounds delay timeout Hdelay) as Hbudget.
  rewrite poller_start. destruct skip_first.
  - intros Hrun.
    apply (retry_loop_requests (Z.to_nat (timeout / delay))) in Hrun
      as (new & Hlog & Hcount); auto; [| lia].
    exists new. split; [exact Hlog | lia].
  - rewrite request_world.
    destruct (fetch_url_json_of _ _ _ _ _) as [e|[result error]];
      [intros H; injection H as <- <-; eexists; split;
       [reflexivity | unfold requests_made; simpl; lia] |].
    destruct (check result error);
      [intros H; injection H as <- <-; eexists; split;
       [reflexivity | unfold requests_made; simpl; lia] |].
    intros Hrun.
    apply (retry_loop_requests (Z.to_nat (timeout / delay))) in Hrun
      as (new & Hlog & Hcount); auto.
    + exists ([Requested (clock w) (ok (result, error))] ++ new). split.
      * rewrite Hlog. simpl. now rewrite <- List.app_assoc.
      * rewrite requests_made_app. unfold requests_made at 1. simpl. lia.
    + pose proof (Htook w). simpl. lia.
Qed.

End PollerBounds.

Section PollerRuns.

Variable json_loads : bytes -> option json.
Variable fetch_url : world -> fetch_resp * fetch_info * Z.
Variable url : string.
Variable check : option json -> option json -> bool.
Variable delay timeout : Z.
Variable kwargs : request_opts.

Notation request := (fetch_url_json json_loads fetch_url url kwargs).
Notation loop := (retry_loop json_loads fetch_url url check delay timeout kwargs).
Notation poller :=
  (fetch_url_json_with_retries json_loads fetch_url url check delay timeout kwargs).
Notation rested := (after_sleep delay timeout).

(** A run ends with a request, and its result comes from that request. *)
Lemma poll_trace_last (new : list event) (r : Py.result (option json * option json)) :
  poll_trace check new r ->
  exists pre t o,
    new = pre ++ [Requested t o]
    /\ (forall res err, r = ok (res, err) -> o = ok (res, err) /\ check res err = true)
    /\ (forall e, r = raise e ->
          o = raise e
          \/ exists res err, e = CheckDoneTimeoutException res err
                             /\ o = ok (res, err) /\ check res err = false).
Proof.
  induction 1 as [t0 e0|t0 res0 err0 Hc|t0 res0 err0 Hc|d tr r Htr IH|t0 res0 err0 tr r Hc Htr IH].
  - exists [], t0, (raise e0). repeat split; [discriminate | discriminate |].
    intros e H. injection H as <-. auto.
  - exists [], t0, (ok (res0, err0)). repeat split.
    + now injection H as <- <-.
    + injection H as <- <-. exact Hc.
    + discriminate.
  - exists [], t0, (ok (res0, err0)). repeat split; [discriminate | discriminate |].
    intros e H. injection H as <-. right. eauto.
  - destruct IH as (pre & t & o & -> & Hok & Hraise).
    exists (Slept d :: pre), t, o. auto.
  - destruct IH as (pre & t & o & -> & Hok & Hraise).
    exists (Requested t0 (ok (res0, err0)) :: pre), t, o. auto.
Qed.

(** X19. Every finished run of the poller ends with a request, and its
    result comes from that last request: a returned pair is the outcome of
    the last request and satisfies check_done; an exception is the failure
    of the last request, or the timeout, which then carries the outcome of
    the last request, on which check_done is false. *)
Theorem poller_result_is_last_outcome (fuel : nat) (skip_first : bool) (w w1 : world)
    (r : Py.result (option json * option json)) :
  poller fuel skip_first w = Some (r, w1) ->
  exists pre t o,
    log w1 = log w ++ pre ++ [Requested t o]
    /\ (forall res err, r = ok (res, err) -> o = ok (res, err) /\ check res err = true)
    /\ (forall e, r = raise e ->
          o = raise e
          \/ exists res err, e = CheckDoneTimeoutException res err
                             /\ o = ok (res, err) /\ check res err = false).
Proof.
  intros Hrun. apply poller_trace in Hrun as (new & Hlog & Htrace).
  apply poll_trace_last in Htrace as (pre & t & o & -> & Hok & Hraise).
  exists pre, t, o. auto.
Qed.

(** The timeout of the loop comes after a request at or after the deadline. *)
Lemma retry_loop_timeout (fuel : nat) (start : Z) (w w1 : world) (res err : option json) :
  loop fuel start w = Some (raise (CheckDoneTimeoutException res err), w1) ->
  exists pre t,
    log w1 = log w ++ pre ++ [Requested t (ok (res, err))]
    /\ timeout <= t - start
    /\ check res err = false.
Proof.
  revert w. induction fuel as [|fuel IH]; intros w Hrun; [discriminate Hrun |].
  rewrite retry_loop_round in Hrun.
  destruct (request (rested start w)) as [[[e|[result error]] w']|] eqn:Hreq;
    [| | discriminate Hrun].
  - injection Hrun as -> ->. now apply request_never_times_out in Hreq.
  - rewrite request_world in Hreq. injection Hreq as Hout <-.
    destruct (check result error) eqn:Hcheck; [discriminate Hrun |].
    destruct (Z.ltb_spec (timeout - (clock w - start)) delay) as [Hlt|Hge].
    + injection Hrun as <- <- <-.
      exists [Slept (Z.max (Z.min delay (timeout - (clock w - start))) 0)],
        (clock (rested start w)).
      rewrite Hout. repeat split.
      * unfold after_sleep. simpl. now rewrite <- List.app_assoc.
      * unfold after_sleep. simpl. lia.
      * exact Hcheck.
    + apply IH in Hrun as (pre & t & Hlog & Ht & Hc).
      exists ([Slept (Z.max (Z.min delay (timeout - (clock w - start))) 0);
               Requested (clock (rested start w)) (ok (result, error))] ++ pre), t.
      repeat split; [| exact Ht | exact Hc].
      rewrite Hlog, Hout. unfold after_sleep. simpl. now rewrite <- !List.app_assoc.
Qed.

(** X20. The poller does not give up before the deadline: when it raises the
    timeout, its last request began timeout seconds after the start or
    later, and check_done is false on the outcome that the timeout
    carries. *)
Theorem poller_timeout_after_deadline (fuel : nat) (skip_first : bool) (w w1 : world)
    (res err : option json) :
  poller fuel skip_first w = Some (raise (CheckDoneTimeoutException res err), w1) ->
  exists pre t,
    log w1 = log w ++ pre ++ [Requested t (ok (res, err))]
    /\ timeout <= t - clock w
    /\ check res err = false.
Proof.
  rewrite poller_start. destruct skip_first; [apply retry_loop_timeout |].
  destruct (request w) as [[[e|[result error]] w']|] eqn:Hreq; [| | discriminate].
  - intros H. injection H as -> ->. now apply request_never_times_out in Hreq.
  - rewrite request_world in Hreq. injection Hreq as Hout <-.
    destruct (check result error); [discriminate |].
    intros Hrun. apply retry_loop_timeout in Hrun as (pre & t & Hlog & Ht & Hc).
    exists (Requested (clock w) (ok (result, error)) :: pre), t.
    repeat split; [| exact Ht | exact Hc].
    rewrite Hlog, Hout. simpl. now rewrite <- List.app_assoc.
Qed.

(** The events of the loop: rounds, whose sleeps are within the delay. *)
Lemma retry_loop_rounds (fuel : nat) (start : Z) (w w1 : world)
    (r : Py.result (option json * option json)) :
  loop fuel start w = Some (r, w1) ->
  exists new,
    log w1 = log w ++ new
    /\ rounds new
    /\ Forall (fun d => 0 <= d <= Z.max delay 0) (sleeps new).
Proof.
  revert w. induction fuel as [|fuel IH]; intros w Hrun; [discriminate Hrun |].
  rewrite retry_loop_round, request_world in Hrun.
  assert (Hone : forall o,
            rounds [Slept (Z.max (Z.min delay (timeout - (clock w - start))) 0);
                    Requested (clock (rested start w)) o]
            /\ Forall (fun d => 0 <= d <= Z.max delay 0)
                 (sleeps [Slept (Z.max (Z.min delay (timeout - (clock w - start))) 0);
                          Requested (clock (rested start w)) o])).
  { intros o. split; [apply rounds_cons, rounds_nil |].
    simpl. apply List.Forall_cons; [lia | apply List.Forall_nil]. }
  destruct (fetch_url_json_of _ _ _ _ _) as [e|[result error]] eqn:Hout.
  - injection Hrun as <- <-. eexists. split; [| apply Hone].
    unfold after_sleep. simpl. now rewrite <- List.app_assoc.
  - destruct (check result error).
    + injection Hrun as <- <-. eexists. split; [| apply Hone].
      unfold after_sleep. simpl. now rewrite <- List.app_assoc.
    + destruct (_ <? _).
      * injection Hrun as <- <-. eexists. split; [| apply Hone].
        unfold after_sleep. simpl. now rewrite <- List.app_assoc.
      * apply IH in Hrun as (new & Hlog & Hrounds & Hsleeps).
        exists (Slept (Z.max (Z.min delay (timeout - (clock w - start))) 0)
                :: Requested (clock (rested start w)) (ok (result, error)) :: new).
        split; [| split].
        -- rewrite Hlog. unfold after_sleep. simpl. now rewrite <- !List.app_assoc.
        -- now apply rounds_cons.
        -- simpl. apply List.Forall_cons; [lia | exact Hsleeps].
Qed.

(** X21. The poller never sleeps a negative time, nor longer than the delay:
    every sleep of a run takes between 0 and max(delay, 0) seconds. *)
Theorem poller_sleeps_bounded (fuel : nat) (skip_first : bool) (w w1 : world)
    (r : Py.result (option json * option json)) :
  poller fuel skip_first w = Some (r, w1) ->
  exists new,
    log w1 = log w ++ new
    /\ forall d, d ∈ sleeps new -> 0 <= d <= Z.max delay 0.
Proof.
  rewrite poller_start. destruct skip_first.
  - intros Hrun. apply retry_loop_rounds in Hrun as (new & Hlog & _ & Hsleeps).
    exists new. split; [exact Hlog |]. rewrite Forall_forall in Hsleeps. exact Hsleeps.
  - rewrite request_world.
    destruct (fetch_url_json_of _ _ _ _ _) as [e|[result error]];
      [intros H; injection H as <- <-; eexists; split; [reflexivity |];
       intros d Hd; now apply elem_of_nil in Hd |].
    destruct (check result error);
      [intros H; injection H as <- <-; eexists; split; [reflexivity |];
       intros d Hd; now apply elem_of_nil in Hd |].
    intros Hrun. apply retry_loop_rounds in Hrun as (new & Hlog & _ & Hsleeps).
    exists (Requested (clock w) (ok (result, error)) :: new). split.
    + rewrite Hlog. simpl. now rewrite <- List.app_assoc.
    + simpl. intros d Hd. rewrite Forall_forall in Hsleeps. now apply Hsleeps.
Qed.

(** X22. The poller sleeps once before every request of its loop: the events
    of a run are rounds of one sleep and then one request, after the first
    request when skip_first is not set; two requests never follow each other
    without a sleep, and no sleep is the last event. *)
Theorem poller_rounds (fuel : nat) (skip_first : bool) (w w1 : world)
    (r : Py.result (option json * option json)) :
  poller fuel skip_first w = Some (r, w1) ->
  exists new,
    log w1 = log w ++ new
    /\ if skip_first then rounds new
       else exists t o rest, new = Requested t o :: rest /\ rounds rest.
Proof.
  rewrite poller_start. destruct skip_first.
  - intros Hrun. apply retry_loop_rounds in Hrun as (new & Hlog & Hrounds & _). eauto.
  - rewrite request_world.
    destruct (fetch_url_json_of _ _ _ _ _) as [e|[result error]];
      [intros H; injection H as <- <-; eexists; split; [reflexivity |];
       eexists _, _, []; split; [reflexivity | apply rounds_nil] |].
    destruct (check result error);
      [intros H; injection H as <- <-; eexists; split; [reflexivity |];
       eexists _, _, []; split; [reflexivity | apply rounds_nil] |].
    intros Hrun. apply retry_loop_rounds in Hrun as (new & Hlog & Hrounds & _).
    exists (Requested (clock w) (ok (result, error)) :: new). split.
    + rewrite Hlog. simpl. now rewrite <- List.app_assoc.
    + eauto.
Qed.

(** The time of the loop, when every request takes between 0 and [L]
    seconds. *)
Lemma retry_loop_elapsed (L : Z) :
  0 < delay ->
  (forall w', 0 <= (fetch_url w').2 <= L) ->
  forall fuel start w r w1,
    clock w - start <= Z.max timeout 0 + L ->
    loop fuel start w = Some (r, w1) ->
    clock w1 - start <= Z.max timeout 0 + 2 * L.
Proof.
  intros Hdelay Htook. induction fuel as [|fuel IH]; intros start w r w1 Hinv Hrun;
    [discriminate Hrun |].
  rewrite retry_loop_round, request_world in Hrun.
  pose proof (Htook (rested start w)) as Hreq.
  destruct (fetch_url_json_of _ _ _ _ _) as [e|[result error]].
  - injection Hrun as <- <-. unfold after_sleep in *. simpl in *. lia.
  - destruct (check result error).
    + injection Hrun as <- <-. unfold after_sleep in *. simpl in *. lia.
    + destruct (Z.ltb_spec (timeout - (clock w - start)) delay) as [Hlt|Hge].
      * injection Hrun as <- <-. unfold after_sleep in *. simpl in *. lia.
      * apply IH in Hrun; [exact Hrun |]. unfold after_sleep in *. simpl in *. lia.
Qed.

(** X23. The time of the poller is bounded: with a positive delay and requests
    that take between 0 and L seconds each, a run ends at most
    max(timeout, 0) + 2 L seconds after its start. *)
Theorem poller_elapsed_bound (L : Z) (fuel : nat) (skip_first : bool) (w w1 : world)
    (r : Py.result (option json * option json)) :
  0 < delay ->
  (forall w', 0 <= (fetch_url w').2 <= L) ->
  poller fuel skip_first w = Some (r, w1) ->
  clock w1 - clock w <= Z.max timeout 0 + 2 * L.
Proof.
  intros Hdelay Htook. pose proof (Htook w) as Hfirst.
  rewrite poller_start. destruct skip_first.
  - apply (retry_loop_elapsed L Hdelay Htook). lia.
  - rewrite request_world.
    destruct (fetch_url_json_of _ _ _ _ _) as [e|[result error]];
      [intros H; injection H as <- <-; simpl; lia |].
    destruct (check result error); [intros H; injection H as <- <-; simpl; lia |].
    apply (retry_loop_elapsed L Hdelay Htook). simpl. lia.
Qed.

End PollerRuns.

(** ** The scenario of the timeout, as a run of each property *)

Lemma scenario_run :
  fetch_url_json_with_retries loads_empty_object instant_reply sample_url never_done
    10 25 default_opts 3 false at_noon
  = Some (scenario_timeout, scenario_end).
Proof. vm_compute. reflexivity. Qed.

Lemma instant_reply_takes_no_time (w : world) : 0 <= (instant_reply w).2 <= 0.
Proof. simpl. lia. Qed.

Lemma poller_terminates_witness :
  exists r w1,
    fetch_url_json_with_retries loads_empty_object instant_reply sample_url never_done
      10 25 default_opts 3 false at_noon
    = Some (r, w1).
Proof.
  apply (poller_terminates loads_empty_object instant_reply sample_url never_done
           10 25 default_opts 3 false at_noon).
  - lia.
  - intros w'. simpl. lia.
  - vm_compute. lia.
Defined.

Lemma poller_request_bound_witness :
  exists new,
    log scenario_end = log at_noon ++ new
    /\ (requests_made new <= Z.to_nat (25 / 10) + 2)%nat.
Proof.
  apply (poller_request_bound loads_empty_object instant_reply sample_url never_done
           10 25 default_opts 3 false at_noon scenario_end scenario_timeout).
  - lia.
  - intros w'. simpl. lia.
  - vm_compute. reflexivity.
Defined.

Lemma poller_result_is_last_outcome_witness :
  exists pre t o,
    log scenario_end = log at_noon ++ pre ++ [Requested t o]
    /\ (forall res err, scenario_timeout = ok (res, err) ->
          o = ok (res, err) /\ never_done res err = true)
    /\ (forall e, scenario_timeout = raise e ->
          o = raise e
          \/ exists res err, e = CheckDoneTimeoutException res err
                             /\ o = ok (res, err) /\ never_done res err = false).
Proof.
  apply (poller_result_is_last_outcome loads_empty_object instant_reply sample_url
           never_done 10 25 default_opts 3 false at_noon scenario_end scenario_timeout).
  vm_compute. reflexivity.
Defined.

Lemma poller_timeout_after_deadline_witness :
  exists pre t,
    log scenario_end = log at_noon ++ pre ++ [Requested t (ok (Some (JObject []), None))]
    /\ 25 <= t - clock at_noon
    /\ never_done (Some (JObject [])) None = false.
Proof.
  apply (poller_timeout_after_deadline loads_empty_object instant_reply sample_url
           never_done 10 25 default_opts 3 false at_noon scenario_end
           (Some (JObject [])) None).
  vm_compute. reflexivity.
Defined.

Lemma poller_sleeps_bounded_witness :
  exists new,
    log scenario_end = log at_noon ++ new
    /\ forall d, d ∈ sleeps new -> 0 <= d <= Z.max 10 0.
Proof.
  apply (poller_sleeps_bounded loads_empty_object instant_reply sample_url
           never_done 10 25 default_opts 3 false at_noon scenario_end scenario_timeout).
  vm_compute. reflexivity.
Defined.

Lemma poller_rounds_witness :
  exists new,
    log scenario_end = log at_noon ++ new
    /\ exists t o rest, new = Requested t o :: rest /\ rounds rest.
Proof.
  apply (poller_rounds loads_empty_object instant_reply sample_url
           never_done 10 25 default_opts 3 false at_noon scenario_end scenario_timeout).
  vm_compute. reflexivity.
Defined.

Lemma poller_elapsed_bound_witness :
  clock scenario_end - clock at_noon <= Z.max 25 0 + 2 * 0.
Proof.
  apply (poller_elapsed_bound loads_empty_object instant_reply sample_url
           never_done 10 25 default_opts 0 3 false at_noon scenario_end scenario_timeout).
  - lia.
  - apply instant_reply_takes_no_time.
  - vm_compute. reflexivity.
Defined.
